(** * Image-quality metrics of [mriqc/qc/anatomical.py] and the upload
      client of [mriqc/interfaces/webapi.py]: a shallow embedding.

    Conventions of the embedding.
    - A numpy array is the list of its elements in C order; boolean-mask
      indexing [a[m]] pairs the two lists position by position and raises
      [IndexError] when their sizes differ.
    - Floating-point numbers are read as exact rationals ([Q]); a decimal
      literal denotes its decimal value.  A float that is not finite
      ([nan], [inf]) is [None] in the type [fl]: numpy produces such a value
      (with a warning) where Python's own arithmetic would raise.
    - A raised exception is [Raise e] in the type [result].
    - Functions of numpy, scipy and statsmodels whose body matters are
      written out ([median], [mad], [percentile], ...); [np.sqrt], the
      morphology of [scipy.ndimage] and the chi fit are parameters of the
      sections that use them.
    - A volume is a floating-point array unless said otherwise; where numpy
      computes in the integer type of the volume ([fber]) the integer case
      has a definition of its own. *)

From Stdlib Require Import ZArith QArith Qabs Qround Lqa Lia String Ascii.
From stdpp Require Import base option list gmap strings pretty.

Local Open Scope Q_scope.
Local Open Scope string_scope.

(** ** Exceptions and results *)

Inductive exn : Type :=
  | RuntimeError
  | KeyError
  | IndexError
  | TypeError
  | ValueError
  | AttributeError
  | UnboundLocalError
  | OSError.

Inductive result (A : Type) : Type :=
  | Ok (a : A)
  | Raise (e : exn).
Arguments Ok {A} a.
Arguments Raise {A} e.

#[global] Instance result_ret : MRet result := fun A a => Ok a.
#[global] Instance result_bind : MBind result := fun A B f m =>
  match m with
  | Ok a => f a
  | Raise e => Raise e
  end.

(** ** Floats: finite rationals or a non-finite value *)

Definition fl : Type := option Q.

Definition Qltb (x y : Q) : bool := negb (Qle_bool y x).

Definition fl_add (a b : fl) : fl :=
  match a, b with Some x, Some y => Some (x + y) | _, _ => None end.
Definition fl_sub (a b : fl) : fl :=
  match a, b with Some x, Some y => Some (x - y) | _, _ => None end.
Definition fl_mul (a b : fl) : fl :=
  match a, b with Some x, Some y => Some (x * y) | _, _ => None end.
(** numpy division: a zero divisor gives [inf] or [nan], never an exception. *)
Definition fl_div (a b : fl) : fl :=
  match a, b with
  | Some x, Some y => if Qeq_bool y 0 then None else Some (x / y)
  | _, _ => None
  end.
Definition fl_abs (a : fl) : fl := Qabs <$> a.
(** [a < c]: every comparison with [nan] is false. *)
Definition fl_ltb (a : fl) (c : Q) : bool :=
  match a with Some x => Qltb x c | None => false end.

(** ** Arrays *)

Inductive ndarray : Type :=
  | IntArr (l : list Z)
  | FloatArr (l : list Q).

Definition arr_len (a : ndarray) : nat :=
  match a with IntArr l => length l | FloatArr l => length l end.

(** [a > 0], [a > .5] and friends: element-wise tests. *)
Definition arr_test (fz : Z -> bool) (fq : Q -> bool) (a : ndarray) : list bool :=
  match a with IntArr l => map fz l | FloatArr l => map fq l end.

Definition gt0 : ndarray -> list bool :=
  arr_test (fun z => (0 <? z)%Z) (fun q => Qltb 0 q).
Definition gt_half : ndarray -> list bool :=
  arr_test (fun z => (0 <? z)%Z) (fun q => Qltb (1 # 2) q).
Definition eq_int (lid : Z) : ndarray -> list bool :=
  arr_test (fun z => (z =? lid)%Z) (fun q => Qeq_bool q (inject_Z lid)).

(** [np.sum(a)] *)
Definition Qsum (l : list Q) : Q := fold_right Qplus 0 l.
Definition arr_sum (a : ndarray) : Q :=
  match a with
  | IntArr l => inject_Z (fold_right Z.add 0%Z l)
  | FloatArr l => Qsum l
  end.

(** [img[m]] for a boolean array [m]. *)
Fixpoint pick (img : list Q) (m : list bool) : list Q :=
  match img, m with
  | x :: img', b :: m' => if b then x :: pick img' m' else pick img' m'
  | _, _ => []
  end.

Definition bool_index (img : list Q) (m : list bool) : result (list Q) :=
  if (length img =? length m)%nat then Ok (pick img m) else Raise IndexError.

(** ** Robust statistics *)

Fixpoint insert_sorted (x : Q) (l : list Q) : list Q :=
  match l with
  | [] => [x]
  | y :: l' => if Qle_bool x y then x :: l else y :: insert_sorted x l'
  end.

Definition sort (l : list Q) : list Q := fold_right insert_sorted [] l.

(** [np.median]: the middle element of the sorted data, or the mean of the
    two middle ones; [nan] on an empty array. *)
Definition median (l : list Q) : fl :=
  let s := sort l in
  let n := length s in
  match n with
  | O => None
  | _ =>
    if Nat.even n
    then Some ((nth (n / 2 - 1) s 0 + nth (n / 2) s 0) / 2)
    else Some (nth (n / 2) s 0)
  end.

(** [statsmodels.robust.scale.mad(a, c)]: [median(|a - median(a)| / c)]. *)
Definition mad (c : Q) (l : list Q) : fl :=
  match median l with
  | Some center =>
    if Qeq_bool c 0 then None
    else median (map (fun x => Qabs (x - center) / c) l)
  | None => None
  end.

(** [a.mean()] *)
Definition mean (l : list Q) : fl :=
  fl_div (Some (Qsum l)) (Some (inject_Z (Z.of_nat (length l)))).

(** Linear interpolation between the closest ranks of sorted data. *)
Definition interpolate (s : list Q) (p : Q) : Q :=
  let pos := inject_Z (Z.of_nat (length s - 1)) * p / 100 in
  let lo := Z.to_nat (Qfloor pos) in
  let frac := pos - inject_Z (Qfloor pos) in
  nth lo s 0 + frac * (nth (S lo) s (nth lo s 0) - nth lo s 0).

(** [np.percentile(a, p)]: [IndexError] on an empty array. *)
Definition percentile (l : list Q) (p : Q) : result Q :=
  match sort l with
  | [] => Raise IndexError
  | s => Ok (interpolate s p)
  end.

(** ** The label table *)


Definition FSL_FAST_LABELS : list (string * Z) :=
  [("csf", 1%Z); ("gm", 2%Z); ("wm", 3%Z); ("bg", 0%Z)].

Fixpoint assoc {V : Type} (k : string) (d : list (string * V)) : option V :=
  match d with
  | [] => None
  | (k', v) :: d' => if String.eqb k k' then Some v else assoc k d'
  end.

(** [d[k]] on a dict: [KeyError] when the key is missing. *)
Definition getitem {V : Type} (d : list (string * V)) (k : string) : result V :=
  match assoc k d with Some v => Ok v | None => Raise KeyError end.

(** A label argument is text or already a number. *)
Inductive label : Type :=
  | NamedLabel (s : string)
  | RawLabel (z : Z).

(** [if isinstance(l, str): l = FSL_FAST_LABELS[l]] *)
Definition resolve_label (l : label) : result Z :=
  match l with
  | NamedLabel s => getitem FSL_FAST_LABELS s
  | RawLabel z => Ok z
  end.


(** ** Mask preparation *)

(** [a[test(a)] = v], element by element. *)
Definition setitem_where {A : Type} (test : A -> bool) (v : A) (a : list A) : list A :=
  map (fun x => if test x then v else x) a.

(** The non-zero elements, as the morphology routines read their input. *)
Definition nonzero : ndarray -> list bool :=
  arr_test (fun z => negb (z =? 0)%Z) (fun q => negb (Qeq_bool q 0)).

(** [.astype(np.uint8)] of a boolean array. *)
Definition astype_uint8 (m : list bool) : ndarray :=
  IntArr (map (fun b : bool => if b then 1%Z else 0%Z) m).

(** The two branches of [_prepare_mask] before the optional opening. *)
Definition binarize (mask : ndarray) (l : label) : result ndarray :=
  match mask with
  | IntArr a =>
    lid ← resolve_label l;
    let a1 := setitem_where (fun v => negb (v =? lid)%Z) 0%Z a in
    let a2 := setitem_where (fun v => (v =? lid)%Z) 1%Z a1 in
    Ok (IntArr a2)
  | FloatArr a =>
    let a1 := setitem_where (fun v => Qltb (95 # 100) v) 1 a in
    let a2 := setitem_where (fun v => Qltb v 1) 0 a1 in
    Ok (FloatArr a2)
  end.

Section Metrics.

(** [np.sqrt] on non-negative floats. *)
Variable sqrtQ : Q -> Q.
(** [nd.binary_opening] and [nd.binary_erosion] with the structuring element
    [generate_binary_structure(3, 2)], on the grid of the volume. *)
Variable binary_opening : list bool -> list bool.
Variable binary_erosion : list bool -> list bool.
(** The consistency constant of [mad], [Gaussian.ppf(3/4.)]. *)
Variable mad_c : Q.

Definition fl_sqrt (a : fl) : fl :=
  match a with
  | Some x => if Qltb x 0 then None else Some (sqrtQ x)
  | None => None
  end.

Definition _prepare_mask (mask : ndarray) (l : label) (erode : bool) : result ndarray :=
  fgmask ← binarize mask l;
  if erode
  then Ok (astype_uint8 (binary_opening (nonzero fgmask)))
  else Ok fgmask.

(** [np.sum((sel - center) ** 2)]; the sum over an empty selection is 0
    whatever the centre. *)
Definition sum_sq_dev (sel : list Q) (center : fl) : fl :=
  match center, sel with
  | Some m, _ => Some (Qsum (map (fun x => (x - m) ^ 2) sel))
  | None, [] => Some 0
  | None, _ => None
  end.

Definition snr (img : list Q) (smask : ndarray) (erode : bool) (fglabel : label)
  : result fl :=
  fglabel ← resolve_label fglabel;
  fgmask ← _prepare_mask smask (RawLabel fglabel) erode;
  fgsel ← bool_index img (gt0 fgmask);
  let fg_mean := median fgsel in
  let bgmask := fgmask in
  let bg_mean := fg_mean in
  bgsel ← bool_index img (gt0 bgmask);
  let bg_std :=
    fl_sqrt (fl_div (sum_sq_dev bgsel bg_mean) (Some (arr_sum bgmask - 1))) in
  Ok (fl_div fg_mean bg_std).

(** [math.pi], the double nearest to the number pi. *)
Definition pi : Q := 884279719003555 # 281474976710656.

Definition snr_dietrich (img : list Q) (smask airmask : ndarray) (erode : bool)
    (fglabel : label) : result fl :=
  fglabel ← resolve_label fglabel;
  fgmask ← _prepare_mask smask (RawLabel fglabel) erode;
  bgmask ← _prepare_mask airmask (RawLabel 1) erode;
  fgsel ← bool_index img (gt0 fgmask);
  let fg_mean := median fgsel in
  bgsel ← bool_index img (gt0 bgmask);
  let bg_std := mad mad_c bgsel in
  let bg_std := fl_mul bg_std (fl_sqrt (Some (2 / (4 - pi)))) in
  if fl_ltb bg_std (1 # 1000)
  then Ok (Some (- (1)))
  else Ok (fl_div fg_mean bg_std).

(** [np.average] of a 0-d array (a scalar): its only element. *)
Definition np_average_0d (x : fl) : fl := x.

Definition cnr (img : list Q) (seg : ndarray) (lbl : option (list (string * Z)))
  : result fl :=
  let lbl := match lbl with None => FSL_FAST_LABELS | Some d => d end in
  bg ← getitem lbl "bg";
  bgsel ← bool_index img (eq_int bg seg);
  let noise_std := mad mad_c bgsel in
  noise_std ←
    (if fl_ltb noise_std 1
     then
       gm ← getitem lbl "gm";
       gmsel ← bool_index img (eq_int gm seg);
       wm ← getitem lbl "wm";
       wmsel ← bool_index img (eq_int wm seg);
       csf ← getitem lbl "csf";
       csfsel ← bool_index img (eq_int csf seg);
       Ok (np_average_0d (fl_add (fl_add (mad mad_c gmsel) (mad mad_c wmsel))
                                 (mad mad_c csfsel)))
     else Ok noise_std);
  gm ← getitem lbl "gm";
  gmsel ← bool_index img (eq_int gm seg);
  wm ← getitem lbl "wm";
  wmsel ← bool_index img (eq_int wm seg);
  Ok (fl_div (fl_abs (fl_sub (median gmsel) (median wmsel))) noise_std).

(** [m = np.zeros_like(seg); m[seg == lid] = 1] *)
Definition label_mask (lid : Z) (seg : ndarray) : ndarray :=
  match seg with
  | IntArr l => IntArr (map (fun v => if (v =? lid)%Z then 1%Z else 0%Z) l)
  | FloatArr l =>
    FloatArr (map (fun v => if Qeq_bool v (inject_Z lid) then 1 else 0) l)
  end.

Definition is_None {A : Type} (o : option A) : bool :=
  match o with None => true | Some _ => false end.

Definition cjv (img : list Q) (seg wmmask gmmask : option ndarray)
    (wmlabel gmlabel : label) : result fl :=
  if is_None seg && (is_None wmmask || is_None gmmask)
  then Raise RuntimeError
  else
    '(wmmask, gmmask) ←
      match seg with
      | Some seg =>
        wmlabel ← resolve_label wmlabel;
        gmlabel ← resolve_label gmlabel;
        Ok (Some (label_mask wmlabel seg), Some (label_mask gmlabel seg))
      | None => Ok (wmmask, gmmask)
      end;
    match wmmask, gmmask with
    | Some wmmask, Some gmmask =>
      wmsel ← bool_index img (gt_half wmmask);
      let mu_wm := median wmsel in
      gmsel ← bool_index img (gt_half gmmask);
      let mu_gm := median gmsel in
      let sigma_wm := mad mad_c wmsel in
      let sigma_gm := mad mad_c gmsel in
      Ok (fl_div (fl_add sigma_wm sigma_gm) (fl_sub mu_wm mu_gm))
    | _, _ => Raise TypeError
    end.

(** *** [art_qi2] and its diagnostic file *)

(** [op.abspath]: depends on the working directory. *)
Variable abspath : string -> string.
(** Lines 278-304 of [art_qi2]: histogram, chi fit and raw goodness of fit of
    the positive air samples, and the JSON text of the record once the
    clipped value is known. *)
Variable chi_fit : list Q -> Z -> fl * (fl -> string).

(** Whether a file at the given path can be opened for writing (its
    directory exists and is writable). *)
Variable openable : string -> bool.

(** The file system: path to content.  [touch] is what a successful
    [open(path, 'a').close()] does. *)
Definition touch (path : string) (fs : gmap string string) : gmap string string :=
  match fs !! path with
  | Some _ => fs
  | None => <[path := ""]> fs
  end.

Definition fl_gtb (a : fl) (c : Q) : bool :=
  match a with Some x => Qltb c x | None => false end.

Definition art_qi2 (img : list Q) (airmask : ndarray) (ncoils : Z)
    (erodemask : bool) (out_file : string) (min_voxels : Q)
    (fs : gmap string string) : result (fl * string) * gmap string string :=
  let out_file := abspath out_file in
  if negb (openable out_file) then (Raise OSError, fs)
  else
    let fs := touch out_file fs in
    let airmask :=
      if erodemask then astype_uint8 (binary_erosion (nonzero airmask))
      else airmask in
    match bool_index img (gt0 airmask) with
    | Raise e => (Raise e, fs)
    | Ok data =>
      let positive := filter (fun x => Qltb 0 x = true) data in
      if Qltb (inject_Z (Z.of_nat (length positive))) min_voxels
      then (Ok (Some 0, out_file), fs)
      else
        let '(gof, dump) := chi_fit positive ncoils in
        let gof := if fl_gtb gof 1 then Some 1 else gof in
        let gof := if fl_ltb gof 0 then Some 0 else gof in
        (Ok (gof, out_file), <[out_file := dump gof]> fs)
    end.

End Metrics.

(** ** Tissue volumes *)

(** [l[i]] on a Python list: negative indices count from the end. *)
Definition py_index {A : Type} (l : list A) (i : Z) : result A :=
  let j := if (i <? 0)%Z then (i + Z.of_nat (length l))%Z else i in
  if (j <? 0)%Z then Raise IndexError
  else match l !! Z.to_nat j with
       | Some x => Ok x
       | None => Raise IndexError
       end.

(** A [for] loop whose body may raise. *)
Fixpoint for_each {A S : Type} (body : A -> S -> result S) (items : list A) (s : S)
  : result S :=
  match items with
  | [] => Ok s
  | x :: items' => s' ← body x s; for_each body items' s'
  end.

(** One round of the first loop of [volume_fraction]. *)
Definition vf_accumulate (pvms : list (list Q)) (item : string * Z)
    (acc : gmap string Q * Q) : result (gmap string Q * Q) :=
  let '(k, lid) := item in
  let '(tissue_vfs, total) := acc in
  if (lid =? 0)%Z then Ok (tissue_vfs, total)
  else
    pvm ← py_index pvms (lid - 1);
    let v := Qsum pvm in
    Ok (<[k := v]> tissue_vfs, total + v).

Definition volume_fraction (pvms : list (list Q)) : result (gmap string fl) :=
  acc ← for_each (vf_accumulate pvms) FSL_FAST_LABELS (∅, 0);
  let tissue_vfs : gmap string Q := acc.1 in
  let total : Q := acc.2 in
  Ok ((fun v => fl_div (Some v) (Some total)) <$> tissue_vfs).

(** ** Residual partial volume error, over a store of arrays *)

(** Arrays live in a store and are passed by reference; a reference is the
    index of its array. *)
Abbreviation heap := (list ndarray).
Abbreviation loc := nat.

(** Computations that read and write the store and may raise. *)
Definition ST (A : Type) : Type := heap -> result A * heap.

#[global] Instance ST_ret : MRet ST := fun A a h => (Ok a, h).
#[global] Instance ST_bind : MBind ST := fun A B f m h =>
  match m h with
  | (Ok a, h') => f a h'
  | (Raise e, h') => (Raise e, h')
  end.

Definition lift {A : Type} (r : result A) : ST A := fun h => (r, h).

(** Reading through a reference (every reference of a program points into
    the store; the second case is there for totality). *)
Definition deref (l : loc) : ST ndarray := fun h =>
  match h !! l with
  | Some a => (Ok a, h)
  | None => (Raise UnboundLocalError, h)
  end.

(** A new array. *)
Definition alloc (a : ndarray) : ST loc := fun h =>
  (Ok (length h), (h ++ [a])%list).

(** Overwriting the array behind a reference. *)
Definition store (l : loc) (a : ndarray) : ST unit := fun h =>
  (Ok tt, <[l := a]> h).

(** The elements of an array as floats. *)
Definition floats (a : ndarray) : list Q :=
  match a with IntArr l => map inject_Z l | FloatArr l => l end.

(** [a[test(a)] = v]: written in place, into the array [a] refers to. *)
Definition setitem_inplace (l : loc) (test : Q -> bool) (v : Q) : ST unit :=
  a ← deref l;
  store l (FloatArr (setitem_where test v (floats a))).

(** [a[m]] for a boolean array [m]: advanced indexing copies the selected
    elements into a new array. *)
Definition getitem_mask (l : loc) (m : list bool) : ST loc :=
  a ← deref l;
  sel ← lift (bool_index (floats a) m);
  alloc (FloatArr sel).

(** [x < t] and [x > t] against a threshold. *)
Definition below (t : Q) (x : Q) : bool := Qltb x t.
Definition above (t : Q) (x : Q) : bool := Qltb t x.

Fixpoint for_each_ST {A S : Type} (body : A -> S -> ST S) (items : list A) (s : S)
  : ST S :=
  match items with
  | [] => mret s
  | x :: items' => s' ← body x s; for_each_ST body items' s'
  end.

(** [a[a > 0]], as a value. *)
Definition positive_part (a : list Q) : list Q := pick a (map (Qltb 0) a).

(** One round of the loop of [rpve]. *)
Definition rpve_tissue (pvms : list loc) (seg : loc) (item : string * Z)
    (pvfs : gmap string Q) : ST (gmap string Q) :=
  let '(k, lid) := item in
  if (lid =? 0)%Z then mret pvfs
  else
    pvm ← lift (py_index pvms (lid - 1));
    segdata ← deref seg;
    pvmap ← getitem_mask pvm (eq_int lid segdata);
    _ ← setitem_inplace pvmap (fun x => Qltb x 0) 0;
    _ ← setitem_inplace pvmap (fun x => Qle_bool 1 x) 0;
    a ← deref pvmap;
    upth ← lift (percentile (positive_part (floats a)) 98);
    loth ← lift (percentile (positive_part (floats a)) 2);
    _ ← setitem_inplace pvmap (below loth) 0;
    _ ← setitem_inplace pvmap (above upth) 0;
    a ← deref pvmap;
    mret (<[k := Qsum (positive_part (floats a))]> pvfs).

(** The PVMs are a Python list of references, the segmentation is a
    reference. *)
Definition rpve (pvms : list loc) (seg : loc) : ST (gmap string Q) :=
  for_each_ST (rpve_tissue pvms seg) FSL_FAST_LABELS ∅.

(** ** Summary statistics *)

Record tissue_stats : Type := {
  st_mean : fl;
  st_stdv : fl;
  st_p95 : fl;
  st_p05 : fl;
  st_k : fl
}.

(** The [pvms] argument: a Python list of maps, or one map. *)
Inductive pvm_arg : Type :=
  | PvmList (l : list (list Q))
  | PvmArray (a : list Q).

Definition same_size (l : list (list Q)) : bool :=
  match l with
  | [] => true
  | a :: r => forallb (fun b => (length b =? length a)%nat) r
  end.

(** [np.array(pvms).sum(axis=0)] *)
Fixpoint sum_axis0 (l : list (list Q)) : list Q :=
  match l with
  | [] => []
  | [a] => a
  | a :: r => zip_with Qplus a (sum_axis0 r)
  end.

(** [img[np.where(m)]]: the voxels at the true positions of [m];
    [IndexError] when one of these positions lies outside [img]. *)
Fixpoint where_select (img : list Q) (m : list bool) : result (list Q) :=
  match m with
  | [] => Ok []
  | b :: m' =>
    match img with
    | x :: img' =>
      r ← where_select img' m';
      Ok (if b then x :: r else r)
    | [] => if existsb (fun b => b) m then Raise IndexError else Ok []
    end
  end.

(** The number of axes of length one of a 3-D shape. *)
Definition unit_axes (shape : nat * nat * nat) : nat :=
  let '(nx, ny, nz) := shape in
  ((if nx =? 1 then 1 else 0) + (if ny =? 1 then 1 else 0)
   + (if nz =? 1 then 1 else 0))%nat.

(** An array of the given shape, flattened. *)
Definition on_grid (shape : nat * nat * nat) (l : list Q) : Prop :=
  let '(nx, ny, nz) := shape in length l = (nx * ny * nz)%nat.

(** [np.squeeze(np.array(pvms)).ndim]: the stack of [k] maps has the shape
    [(k, nx, ny, nz)], a single map has the shape [(nx, ny, nz)], and an
    empty list gives an array of shape [(0,)]. *)
Definition squeezed_ndim (shape : nat * nat * nat) (pvms : pvm_arg) : nat :=
  match pvms with
  | PvmArray _ => (3 - unit_axes shape)%nat
  | PvmList [] => 1%nat
  | PvmList l => ((if length l =? 1 then 0 else 1) + (3 - unit_axes shape))%nat
  end.

Section Summary.

Variable sqrtQ : Q -> Q.

(** The central moment of order [k]. *)
Definition moment (k : positive) (l : list Q) : fl :=
  match mean l with
  | Some m => mean (map (fun x => Qpower_positive (x - m) k) l)
  | None => None
  end.

(** [a.std()]: no Bessel correction. *)
Definition std (l : list Q) : fl := fl_sqrt sqrtQ (moment 2 l).

(** [scipy.stats.kurtosis(a)]: Fisher's definition, biased. *)
Definition kurtosis (l : list Q) : fl :=
  fl_sub (fl_div (moment 4 l) (fl_mul (moment 2 l) (moment 2 l))) (Some 3).

(** The five statistics of one region, in the order of the loop body; the
    two percentiles raise on an empty region. *)
Definition region_stats (sel : list Q) : result tissue_stats :=
  let m := mean sel in
  let sd := std sel in
  p95 ← percentile sel 95;
  p05 ← percentile sel 5;
  Ok {| st_mean := m;
        st_stdv := sd;
        st_p95 := Some p95;
        st_p05 := Some p05;
        st_k := kurtosis sel |}.

(** One round of the loop of [summary_stats]. *)
Definition stats_of_label (img : list Q) (pvms : list (list Q)) (item : string * Z)
    (output : gmap string tissue_stats) : result (gmap string tissue_stats) :=
  let '(k, lid) := item in
  pvm ← py_index pvms lid;
  sel ← where_select img (map (Qltb (1 # 2)) pvm);
  stats ← region_stats sel;
  Ok (<[k := stats]> output).

(** Lines 375-388: the choice of the labels and the loop. *)
Definition stats_loop (img : list Q) (pvms : list (list Q))
  : result (gmap string tissue_stats) :=
  labels ←
    (if (length pvms =? 4)%nat then Ok FSL_FAST_LABELS
     else if (length pvms =? 2)%nat then Ok [("bg", 0%Z); ("fg", 1%Z)]
     else Raise UnboundLocalError);
  for_each (stats_of_label img pvms) labels ∅.

(** [pvms[0] = bgdata] *)
Definition set_background (bgdata : option (list Q)) (pvms : list (list Q))
  : list (list Q) :=
  match bgdata with
  | Some bg => <[0%nat := bg]> pvms
  | None => pvms
  end.

(** [summary_stats] on a volume and maps that live on a grid of the given
    shape.  The outcome is the returned mapping or the exception, together
    with the caller's [pvms] object after the call: [pvms.insert] and
    [pvms[0] = bgdata] write into the caller's list.
    In the branch [dims == 3] a list stands where an array is expected:
    without background data the first selection has one index too many
    ([IndexError]); with background data the first round runs and the
    second compares a list with a float ([TypeError], Python 3). *)
Definition summary_stats (shape : nat * nat * nat) (img : list Q) (pvms : pvm_arg)
    (bgdata : option (list Q))
  : result (gmap string tissue_stats) * pvm_arg :=
  let dims := squeezed_ndim shape pvms in
  match pvms with
  | PvmList l =>
    if (dims =? 4)%nat then
      if same_size l then
        let inserted := sum_axis0 l :: l in
        let final := set_background bgdata inserted in
        (stats_loop img final, PvmList final)
      else (Raise ValueError, pvms)
    else if (dims =? 3)%nat then
      match bgdata with
      | None => (Raise IndexError, pvms)
      | Some bg =>
        (sel ← where_select img (map (Qltb (1 # 2)) bg);
         _ ← region_stats sel;
         Raise TypeError, pvms)
      end
    else (Raise RuntimeError, pvms)
  | PvmArray a =>
    if (dims =? 3)%nat then
      let final := set_background bgdata [map (fun v => 1 - v) a; a] in
      (stats_loop img final, pvms)
    else (Raise RuntimeError, pvms)
  end.

End Summary.

(** ** The upload client ([interfaces/webapi.py]) *)

Module WebAPI.

#[warnings="-register-all"]
Inductive json : Type :=
  | JNull
  | JBool (b : bool)
  | JNum (q : Q)
  | JStr (s : string)
  | JArr (l : list json)
  | JObj (d : gmap string json).

Definition SECRET_KEY : string :=
  "ZUsBaabr6PEbav5DKAHIODEnwpwC58oQTJF7KWvDBPUmBIVFFtw" ++
  "Od7lQBdz9r9ulJTR1BtxBDqDuY0owxK6LbLB1u1b64ZkIMd46".

Definition META_WHITELIST : list string := [
  "ContrastBolusIngredient"; "RepetitionTime"; "TaskName"; "Manufacturer";
  "ManufacturersModelName"; "MagneticFieldStrength"; "DeviceSerialNumber";
  "SoftwareVersions"; "HardcopyDeviceSoftwareVersion"; "ReceiveCoilName";
  "GradientSetType"; "MRTransmitCoilSequence"; "MatrixCoilMode";
  "CoilCombinationMethod"; "PulseSequenceType"; "PulseSequenceDetails";
  "NumberShots"; "ParallelReductionFactorInPlane"; "ParallelAcquisitionTechnique";
  "PartialFourier"; "PartialFourierDirection"; "PhaseEncodingDirection";
  "EffectiveEchoSpacing"; "TotalReadoutTime";
  "EchoTime"; "InversionTime"; "SliceTiming"; "SliceEncodingDirection";
  "NumberOfVolumesDiscardedByScanner"; "NumberOfVolumesDiscardedByUser";
  "DelayTime"; "FlipAngle"; "MultibandAccelerationFactor"; "Instructions";
  "TaskDescription"; "CogAtlasID"; "CogPOID"; "InstitutionName";
  "InstitutionAddress"; "ConversionSoftware"; "ConversionSoftwareVersion";
  "md5sum"; "modality"; "mriqc_pred"; "software"; "subject_id"; "version"
].

(** An HTTP request as [requests.post] receives it. *)
Record request : Type := {
  url : string;
  headers : list (string * string);
  body : string
}.

(** A response, or the [Bunch(status_code=..., text=...)] standing for one. *)
Record response : Type := {
  status_code : Z;
  text : string
}.

(** What [requests.post] does with a request: it returns a response,
    raises [requests.ConnectionError] with a message, or raises another
    exception (an invalid URL, a read timeout, ...), which the client does
    not catch. *)
Inductive post_outcome : Type :=
  | Responded (r : response)
  | ConnectionError (err : string)
  | Failed (e : exn).

Definition dquote : string := String (ascii_of_nat 34) EmptyString.
Definition newline : string := String (ascii_of_nat 10) EmptyString.

Section Upload.

(** [json.dumps] *)
Variable dumps : gmap string json -> string.
(** [str(v)] for a value that is not text. *)
Variable py_str : json -> string.
(** [requests.post] *)
Variable http_post : request -> post_outcome.

(** ['%s' % v] *)
Definition format_s (v : json) : string :=
  match v with JStr s => s | _ => py_str v end.

(** [modality in ('T1w', 'bold')] *)
Definition known_modality (v : json) : bool :=
  match v with
  | JStr s => String.eqb s "T1w" || String.eqb s "bold"
  | _ => false
  end.

Definition whitelisted (d : gmap string json) : gmap string json :=
  filter (fun kv => kv.1 ∈ META_WHITELIST) d.

(** [upload_qc_metrics] on the parsed content [in_data] of the input file.
    The outcome lists the requests handed to [requests.post], oldest first,
    and the returned object or the exception. *)
Definition upload_qc_metrics (in_data : gmap string json) (addr : string)
    (port : Z) (email : option string) : list request * result response :=
  let data := filter (fun kv => kv.1 ≠ "metadata") in_data in
  match in_data !! "metadata" with
  | None => ([], Raise KeyError)
  | Some (JObj metadata) =>
    let modality := default (JStr "None") (metadata !! "modality") in
    if negb (known_modality modality)
    then
      let errmsg :=
        "Submitting to MRIQCWebAPI: image modality should be " ++ dquote ++
        "bold" ++ dquote ++ " or " ++ dquote ++ "T1w" ++ dquote ++
        ", (found " ++ dquote ++ format_s modality ++ dquote ++ ")" in
      ([], Ok {| status_code := 1; text := errmsg |})
    else
      let data := whitelisted metadata ∪ data in
      match
        match in_data !! "settings" with
        | None => Ok data
        | Some (JObj settings) => Ok (whitelisted settings ∪ data)
        | Some _ => Raise AttributeError
        end
      with
      | Raise e => ([], Raise e)
      | Ok data =>
        let data :=
          match email with
          | Some e => if String.eqb e "" then data else <["email" := JStr e]> data
          | None => data
          end in
        let hdrs :=
          [("token", SECRET_KEY); ("Content-Type", "application/json")] in
        let req :=
          {| url := "http://" ++ addr ++ ":" ++ pretty port ++ "/" ++
                    format_s modality;
             headers := hdrs;
             body := dumps data |} in
        match http_post req with
        | Responded response => ([req], Ok response)
        | ConnectionError err =>
          let errmsg :=
            "QC metrics failed to upload due to connection error shown below:" ++
            newline ++ err in
          ([req], Ok {| status_code := 1; text := errmsg |})
        | Failed e => ([req], Raise e)
        end
      end
  | Some _ => ([], Raise AttributeError)
  end.

End Upload.

End WebAPI.

(** ** Executable instances of the parameters *)

(** A square root rounded down to 32 fractional bits. *)
Definition sqrt_fix (q : Q) : Q :=
  Z.sqrt (Qnum q * 2 ^ 64 / Z.pos (Qden q)) # 2 ^ 32.

(** The default consistency constant of [mad], to sixteen decimals. *)
Definition Gaussian_ppf_075 : Q := 6744897501960817 # 10000000000000000.

(** Binary morphology on a grid of [nx * ny * nz] voxels in C order, with
    the structuring element of [generate_binary_structure(3, 2)]: the
    centre and its 18 face and edge neighbours.  Outside the grid the
    image is background. *)
Definition voxel (shape : Z * Z * Z) (m : list bool) (c : Z * Z * Z) : bool :=
  let '(nx, ny, nz) := shape in
  let '(i, j, k) := c in
  if ((0 <=? i) && (i <? nx) && (0 <=? j) && (j <? ny) && (0 <=? k) && (k <? nz))%Z
  then nth (Z.to_nat ((i * ny + j) * nz + k)) m false
  else false.

Definition offsets : list Z := [(-1)%Z; 0%Z; 1%Z].

Definition struc_3_2 : list (Z * Z * Z) :=
  List.filter (fun '(di, dj, dk) => (Z.abs di + Z.abs dj + Z.abs dk <=? 2)%Z)
    (di ← offsets; dj ← offsets; dk ← offsets; [(di, dj, dk)]).

Definition grid (shape : Z * Z * Z) : list (Z * Z * Z) :=
  let '(nx, ny, nz) := shape in
  i ← seqZ 0 nx; j ← seqZ 0 ny; k ← seqZ 0 nz; [(i, j, k)].

Definition erosion3 (shape : Z * Z * Z) (m : list bool) : list bool :=
  map (fun '(i, j, k) =>
         forallb (fun '(di, dj, dk) => voxel shape m (i + di, j + dj, k + dk)%Z)
           struc_3_2)
    (grid shape).

Definition dilation3 (shape : Z * Z * Z) (m : list bool) : list bool :=
  map (fun '(i, j, k) =>
         existsb (fun '(di, dj, dk) => voxel shape m (i - di, j - dj, k - dk)%Z)
           struc_3_2)
    (grid shape).

Definition opening3 (shape : Z * Z * Z) (m : list bool) : list bool :=
  dilation3 shape (erosion3 shape m).

(** [op.abspath] from a working directory. *)
Definition abspath_from (cwd : string) (p : string) : string :=
  match p with
  | String "/" _ => p
  | _ => cwd ++ "/" ++ p
  end.

(** Files can be opened inside one directory only. *)
Definition openable_under (dir : string) (p : string) : bool :=
  String.prefix (dir ++ "/") p.

(** A fit that does not converge: the goodness of fit is [nan]. *)
Definition chi_fit_nan (data : list Q) (ncoils : Z) : fl * (fl -> string) :=
  (None, fun _ => "{}").

(** [str(v)] for the scalars of JSON; a container is elided. *)
Definition str_scalar (v : WebAPI.json) : string :=
  match v with
  | WebAPI.JNull => "None"
  | WebAPI.JBool true => "True"
  | WebAPI.JBool false => "False"
  | WebAPI.JNum q => pretty (Qnum q) ++ "/" ++ pretty (Z.pos (Qden q))
  | WebAPI.JStr s => s
  | _ => "..."
  end.

(** A serializer that lists the keys of the payload. *)
Definition dumps_keys (d : gmap string WebAPI.json) : string :=
  "{" ++ String.concat "," (map fst (map_to_list d)) ++ "}".

(** A network on which no host answers. *)
Definition http_unreachable (r : WebAPI.request) : WebAPI.post_outcome :=
  WebAPI.ConnectionError ("cannot reach " ++ WebAPI.url r).

(** A network on which every request is accepted. *)
Definition http_created (r : WebAPI.request) : WebAPI.post_outcome :=
  WebAPI.Responded {| WebAPI.status_code := 201; WebAPI.text := "" |}.

(** ** Quantities as the specification names them *)

(** The Bessel-corrected standard deviation of a sample: the square root
    of the sum of squared deviations from the mean over [n - 1]. *)
Definition sample_std (sqrtQ : Q -> Q) (l : list Q) : fl :=
  fl_sqrt sqrtQ
    (fl_div (sum_sq_dev l (mean l))
            (Some (inject_Z (Z.of_nat (length l)) - 1))).

(** The foreground median over the sample standard deviation of the same
    selection. *)
Definition snr_spec (sqrtQ : Q -> Q) (sel : list Q) : fl :=
  fl_div (median sel) (sample_std sqrtQ sel).

(** The average of three floats. *)
Definition average3 (a b c : fl) : fl :=
  fl_div (fl_add (fl_add a b) c) (Some 3).

(** The contrast-to-noise ratio with the averaged fallback noise. *)
Definition cnr_spec (c : Q) (gm wm csf : list Q) : fl :=
  fl_div (fl_abs (fl_sub (median gm) (median wm)))
         (average3 (mad c gm) (mad c wm) (mad c csf)).

(** The last five lines of [cjv], once both masks are at hand. *)
Definition cjv_of_masks (mad_c : Q) (img : list Q) (wmmask gmmask : ndarray)
  : result fl :=
  wmsel ← bool_index img (gt_half wmmask);
  gmsel ← bool_index img (gt_half gmmask);
  Ok (fl_div (fl_add (mad mad_c wmsel) (mad mad_c gmsel))
             (fl_sub (median wmsel) (median gmsel))).

(** The trimmed sum of one tissue in [rpve], as a function of the values of
    its map and of the voxels selected by the segmentation. *)
Definition clipped (pvm : list Q) (m : list bool) : list Q :=
  setitem_where (fun x => Qle_bool 1 x) 0
    (setitem_where (fun x => Qltb x 0) 0 (pick pvm m)).

(** Whether some value lies strictly between 0 and 1. *)
Definition has_partial (l : list Q) : bool :=
  existsb (fun x => Qltb 0 x && Qltb x 1) l.

Definition trimmed_sum (pvm : list Q) (m : list bool) : result Q :=
  let s2 := clipped pvm m in
  upth ← percentile (positive_part s2) 98;
  loth ← percentile (positive_part s2) 2;
  let s3 := setitem_where (below loth) 0 s2 in
  let s4 := setitem_where (above upth) 0 s3 in
  Ok (Qsum (positive_part s4)).

(** A mask whose elements are 0 or 1. *)
Definition binary_mask (m : ndarray) : Prop :=
  match m with
  | IntArr l => Forall (fun z => z = 0%Z \/ z = 1%Z) l
  | FloatArr l => Forall (fun q => q = 0 \/ q = 1) l
  end.

(** ** The remaining metrics of [anatomical.py] *)

(** [a < 1], element by element. *)
Definition lt1 : ndarray -> list bool :=
  arr_test (fun z => (z <? 1)%Z) (fun q => Qltb q 1).

(** [(np.abs(sel) ** 2).mean()] *)
Definition mean_energy (sel : list Q) : fl :=
  mean (map (fun x => Qabs x ^ 2) sel).

Definition fber (img : list Q) (air : ndarray) : result fl :=
  fgsel ← bool_index img (gt0 air);
  let fg_mu := mean_energy fgsel in
  bgsel ← bool_index img (lt1 air);
  let bg_mu := mean_energy bgsel in
  if fl_ltb bg_mu (1 # 1000)
  then Ok (Some (- (1)))
  else Ok (fl_div fg_mu bg_mu).

(** Two's-complement wrap-around in an integer type of [bits] bits. *)
Definition wrap (signed : bool) (bits : positive) (z : Z) : Z :=
  let r := (z mod 2 ^ Z.pos bits)%Z in
  if signed && (2 ^ (Z.pos bits - 1) <=? r)%Z
  then (r - 2 ^ Z.pos bits)%Z
  else r.

(** [img[m]] on a volume of integers. *)
Fixpoint pick_int (img : list Z) (m : list bool) : list Z :=
  match img, m with
  | x :: img', b :: m' => if b then x :: pick_int img' m' else pick_int img' m'
  | _, _ => []
  end.

(** [(np.abs(sel) ** 2).mean()] on a volume of integers: the absolute value
    and the square are computed in the integer type of the volume and wrap
    around; the mean is a float. *)
Definition mean_energy_int (signed : bool) (bits : positive) (sel : list Z) : fl :=
  mean (map (fun x =>
               inject_Z (wrap signed bits (wrap signed bits (Z.abs x) ^ 2)))
          sel).

(** [fber] on a volume of integers of the given type. *)
Definition fber_int (signed : bool) (bits : positive) (img : list Z)
    (air : ndarray) : result fl :=
  if negb (length img =? length (gt0 air))%nat then Raise IndexError
  else
    let fg_mu := mean_energy_int signed bits (pick_int img (gt0 air)) in
    if negb (length img =? length (lt1 air))%nat then Raise IndexError
    else
      let bg_mu := mean_energy_int signed bits (pick_int img (lt1 air)) in
      if fl_ltb bg_mu (1 # 1000)
      then Ok (Some (- (1)))
      else Ok (fl_div fg_mu bg_mu).

Definition wm2max (img : list Q) (seg : ndarray) : result fl :=
  wm ← getitem FSL_FAST_LABELS "wm";
  let wmmask := label_mask wm seg in
  wmsel ← bool_index img (gt0 wmmask);
  let wm_median := median wmsel in
  p ← percentile img (9995 # 100);
  Ok (fl_div wm_median (Some p)).

Definition art_qi1 (airmask artmask : ndarray) : fl :=
  fl_div (Some (arr_sum artmask)) (Some (arr_sum airmask + arr_sum artmask)).

(** ** The interface around the upload client *)

(** The body that [upload_qc_metrics] serializes, for a record whose
    [metadata] is the object [metadata] with a known modality. *)
Definition upload_payload (in_data metadata : gmap string WebAPI.json)
    (email : option string) : result (gmap string WebAPI.json) :=
  let data := filter (fun kv => kv.1 ≠ "metadata") in_data in
  let data := WebAPI.whitelisted metadata ∪ data in
  data ←
    match in_data !! "settings" with
    | None => Ok data
    | Some (WebAPI.JObj settings) => Ok (WebAPI.whitelisted settings ∪ data)
    | Some _ => Raise AttributeError
    end;
  Ok match email with
     | Some e =>
       if String.eqb e "" then data else <["email" := WebAPI.JStr e]> data
     | None => data
     end.

(** What [IFLOGGER] receives. *)
Inductive log_entry : Type :=
  | LogInfo (msg : string)
  | LogWarn (msg : string).

(** [UploadIQMs._run_interface]: [in_iqms] stands for the parsed content of
    the input file, [email] is [None] when the trait is undefined.  The
    outcome lists the requests sent and the log entries, and tells whether
    the node returns or raises. *)
Definition _run_interface (dumps : gmap string WebAPI.json -> string)
    (py_str : WebAPI.json -> string)
    (http_post : WebAPI.request -> WebAPI.post_outcome)
    (in_iqms : gmap string WebAPI.json) (address : string) (port : Z)
    (email : option string) (strict : bool)
  : list WebAPI.request * list log_entry * result unit :=
  let '(sent, r) :=
    WebAPI.upload_qc_metrics dumps py_str http_post in_iqms address port email in
  match r with
  | Raise e => (sent, [], Raise e)
  | Ok response =>
    if (WebAPI.status_code response =? 201)%Z
    then (sent, [LogInfo "QC metrics successfully uploaded."], Ok tt)
    else
      let errmsg :=
        "QC metrics failed to upload. Status " ++
        pretty (WebAPI.status_code response) ++ ": " ++ WebAPI.text response in
      (sent, [LogWarn errmsg], if strict then Raise RuntimeError else Ok tt)
  end.

(** * Properties *)

(** ** Helper facts *)

Lemma Qltb_lt (x y : Q) : Qltb x y = true <-> x < y.
Proof.
  unfold Qltb. rewrite negb_true_iff.
  destruct (Qle_bool y x) eqn:E.
  - apply Qle_bool_iff in E. split; [discriminate | lra].
  - split; [intros _ | reflexivity].
    destruct (Qlt_le_dec x y) as [H | H]; [exact H |].
    apply Qle_bool_iff in H. congruence.
Qed.

Lemma Qltb_ge (x y : Q) : Qltb x y = false <-> y <= x.
Proof.
  unfold Qltb. rewrite negb_false_iff. apply Qle_bool_iff.
Qed.

Lemma bool_index_same_length (img : list Q) (m : list bool) :
  length img = length m -> bool_index img m = Ok (pick img m).
Proof.
  intros H. unfold bool_index. rewrite H, Nat.eqb_refl. reflexivity.
Qed.


Lemma length_eq_int (lid : Z) (seg : ndarray) :
  length (eq_int lid seg) = arr_len seg.
Proof. destruct seg; cbn; apply length_map. Qed.

Lemma length_gt_half (a : ndarray) : length (gt_half a) = arr_len a.
Proof. destruct a; cbn; apply length_map. Qed.

(** ** Sorting and the median *)

Lemma insert_sorted_Forall (P : Q -> Prop) (x : Q) (l : list Q) :
  P x -> Forall P l -> Forall P (insert_sorted x l).
Proof.
  intros Hx Hl. induction Hl as [| y l Hy Hl IH]; cbn.
  - constructor; [exact Hx | constructor].
  - destruct (Qle_bool x y).
    + constructor; [exact Hx |]. constructor; assumption.
    + constructor; assumption.
Qed.

Lemma sort_Forall (P : Q -> Prop) (l : list Q) :
  Forall P l -> Forall P (sort l).
Proof.
  induction 1 as [| x l Hx Hl IH]; [constructor |].
  change (sort (x :: l)) with (insert_sorted x (sort l)).
  apply insert_sorted_Forall; assumption.
Qed.

Lemma length_insert_sorted (x : Q) (l : list Q) :
  length (insert_sorted x l) = S (length l).
Proof.
  induction l as [| y l IH]; cbn; [reflexivity |].
  destruct (Qle_bool x y); cbn; [reflexivity |]. rewrite IH. reflexivity.
Qed.

Lemma length_sort (l : list Q) : length (sort l) = length l.
Proof.
  induction l as [| x l IH]; [reflexivity |].
  change (sort (x :: l)) with (insert_sorted x (sort l)).
  rewrite length_insert_sorted, IH. reflexivity.
Qed.

Lemma median_None (l : list Q) : median l = None <-> l = [].
Proof.
  unfold median. cbv zeta. rewrite length_sort. destruct l as [| x l]; cbn [length].
  - split; reflexivity.
  - split; [| discriminate]. destruct (Nat.even (S (length l))); discriminate.
Qed.

(** The median lies in every interval that holds the data. *)
Lemma median_between (lo hi : Q) (l : list Q) (m : Q) :
  Forall (fun x => lo <= x <= hi) l ->
  median l = Some m ->
  lo <= m <= hi.
Proof.
  intros Hl. apply sort_Forall in Hl. unfold median. cbv zeta.
  pose proof (proj1 (List.Forall_nth _ _) Hl) as Hnth.
  destruct (length (sort l)) as [| n] eqn:En; [discriminate |].
  assert (H1 : (S n / 2 < S n)%nat) by (apply Nat.div_lt; lia).
  assert (H2 : (S n / 2 - 1 < S n)%nat) by lia.
  pose proof (Hnth _ 0 H1) as B1. pose proof (Hnth _ 0 H2) as B2.
  clear H1 H2. remember (S n / 2)%nat as i1.
  destruct (Nat.even (S n)); intros [= <-].
  - split.
    + apply Qle_shift_div_l; lra.
    + apply Qle_shift_div_r; lra.
  - exact B1.
Qed.

Lemma median_ge (lo : Q) (l : list Q) (m : Q) :
  Forall (fun x => lo <= x) l -> median l = Some m -> lo <= m.
Proof.
  intros Hl. apply sort_Forall in Hl. unfold median. cbv zeta.
  pose proof (proj1 (List.Forall_nth _ _) Hl) as Hnth.
  destruct (length (sort l)) as [| n] eqn:En; [discriminate |].
  assert (H1 : (S n / 2 < S n)%nat) by (apply Nat.div_lt; lia).
  assert (H2 : (S n / 2 - 1 < S n)%nat) by lia.
  pose proof (Hnth _ 0 H1) as B1. pose proof (Hnth _ 0 H2) as B2.
  clear H1 H2. remember (S n / 2)%nat as i1.
  destruct (Nat.even (S n)); intros [= <-].
  - apply Qle_shift_div_l; lra.
  - exact B1.
Qed.

Lemma mad_nonneg (c : Q) (l : list Q) (d : Q) :
  0 < c -> mad c l = Some d -> 0 <= d.
Proof.
  intros Hc. unfold mad. destruct (median l) as [center |]; [| discriminate].
  destruct (Qeq_bool c 0); [discriminate |].
  apply median_ge. apply Forall_fmap, Forall_true. intros x.
  change (0 <= Qabs (x - center) / c).
  apply Qle_shift_div_l; [exact Hc |].
  pose proof (Qabs_nonneg (x - center)). lra.
Qed.

(** ** Prepared masks *)

Lemma threshold_steps (v : Q) :
  (let x := if Qltb (95 # 100) v then 1 else v in if Qltb x 1 then 0 else x)
  = if Qltb (95 # 100) v then 1 else 0.
Proof.
  cbv zeta. destruct (Qltb (95 # 100) v) eqn:E; [reflexivity |].
  apply Qltb_ge in E.
  destruct (Qltb v 1) eqn:E1; [reflexivity |].
  apply Qltb_ge in E1. lra.
Qed.

Lemma binarize_float (a : list Q) (l : label) :
  binarize (FloatArr a) l
  = Ok (FloatArr (map (fun v => if Qltb (95 # 100) v then 1 else 0) a)).
Proof.
  unfold binarize, setitem_where. rewrite map_map.
  do 2 f_equal. apply map_ext. intros v. apply threshold_steps.
Qed.

Lemma binarize_binary (mask : ndarray) (l : label) (m : ndarray) :
  binarize mask l = Ok m -> binary_mask m.
Proof.
  destruct mask as [a | a]; cbn.
  - destruct (resolve_label l) as [lid | e]; cbn; [| discriminate].
    intros [= <-]. cbn. unfold setitem_where. rewrite map_map.
    apply Forall_fmap, Forall_true. intros v. cbn.
    destruct (v =? lid)%Z eqn:E; cbn.
    + rewrite E. auto.
    + destruct lid; auto.
  - intros [= <-]. cbn. unfold setitem_where. rewrite map_map.
    apply Forall_fmap, Forall_true. intros v. cbn.
    rewrite threshold_steps. destruct (Qltb (95 # 100) v); auto.
Qed.

Lemma astype_uint8_binary (m : list bool) : binary_mask (astype_uint8 m).
Proof.
  cbn. apply Forall_fmap, Forall_true. intros b. cbn.
  destruct b; auto.
Qed.

Lemma prepare_mask_binary (opening : list bool -> list bool) (mask : ndarray)
    (l : label) (erode : bool) (m : ndarray) :
  _prepare_mask opening mask l erode = Ok m -> binary_mask m.
Proof.
  unfold _prepare_mask.
  destruct (binarize mask l) as [b | e] eqn:E; cbn; [| discriminate].
  destruct erode; intros [= <-].
  - apply astype_uint8_binary.
  - exact (binarize_binary _ _ _ E).
Qed.

Lemma inject_Z_succ (n : nat) :
  inject_Z (Z.of_nat (S n)) == 1 + inject_Z (Z.of_nat n).
Proof.
  rewrite Nat2Z.inj_succ. unfold Z.succ. rewrite inject_Z_plus.
  change (inject_Z 1) with 1. apply Qplus_comm.
Qed.

(** [np.sum] of a binary mask counts the voxels it selects. *)
Lemma binary_mask_sum (m : ndarray) (img : list Q) :
  binary_mask m ->
  length img = length (gt0 m) ->
  arr_sum m == inject_Z (Z.of_nat (length (pick img (gt0 m)))).
Proof.
  destruct m as [l | l]; cbn [binary_mask gt0 arr_test arr_sum]; intros Hb.
  - revert img. induction Hb as [| z l Hz _ IH]; intros [| x img] Hlen;
      try discriminate Hlen; [reflexivity |].
    cbn in Hlen. injection Hlen as Hlen. specialize (IH img Hlen).
    cbn [fold_right map pick]. rewrite inject_Z_plus, IH.
    destruct Hz as [-> | ->]; cbn [Z.ltb Z.compare pick length].
    + change (inject_Z 0) with 0. lra.
    + rewrite inject_Z_succ. reflexivity.
  - revert img. induction Hb as [| q l Hq _ IH]; intros [| x img] Hlen;
      try discriminate Hlen; [reflexivity |].
    cbn in Hlen. injection Hlen as Hlen. specialize (IH img Hlen).
    change (Qsum (q :: l)) with (q + Qsum l). rewrite IH.
    cbn [map pick].
    destruct Hq as [-> | ->].
    + change (Qltb 0 0) with false. cbv iota. lra.
    + change (Qltb 0 1) with true. cbv iota.
      cbn [length]. rewrite inject_Z_succ. reflexivity.
Qed.

(** ** [snr] *)

(** What [snr] returns: both statistics come from the one prepared mask,
    and the squared deviations are taken from the median. *)
Lemma snr_value (sqrtQ : Q -> Q) (opening : list bool -> list bool)
    (img : list Q) (smask : ndarray) (erode : bool) (fglabel : label)
    (l : Z) (fgmask : ndarray) :
  resolve_label fglabel = Ok l ->
  _prepare_mask opening smask (RawLabel l) erode = Ok fgmask ->
  length img = length (gt0 fgmask) ->
  let sel := pick img (gt0 fgmask) in
  snr sqrtQ opening img smask erode fglabel =
  Ok (fl_div (median sel)
        (fl_sqrt sqrtQ (fl_div (sum_sq_dev sel (median sel))
                               (Some (arr_sum fgmask - 1))))).
Proof.
  intros Hl Hm Hlen sel. unfold snr.
  rewrite Hl. cbn. rewrite Hm. cbn.
  rewrite (bool_index_same_length _ _ Hlen). reflexivity.
Qed.

(** The normalizer [np.sum(bgmask) - 1] is [n - 1] for the [n] selected
    voxels. *)
Lemma snr_normalizer (opening : list bool -> list bool) (img : list Q)
    (smask : ndarray) (erode : bool) (l : Z) (fgmask : ndarray) :
  _prepare_mask opening smask (RawLabel l) erode = Ok fgmask ->
  length img = length (gt0 fgmask) ->
  arr_sum fgmask - 1
  == inject_Z (Z.of_nat (length (pick img (gt0 fgmask)))) - 1.
Proof.
  intros Hm Hlen.
  rewrite (binary_mask_sum fgmask img (prepare_mask_binary _ _ _ _ _ Hm) Hlen).
  reflexivity.
Qed.

(** C1, at the volume [1; 1; 4] with every voxel in the foreground: the
    median is 1 and the mean 2; [snr] divides the median by the root of
    [((1-1)^2 + (1-1)^2 + (4-1)^2) / 2 = 9/2], whereas the Bessel-corrected
    standard deviation is the root of [((1-2)^2 + (1-2)^2 + (4-2)^2) / 2 = 3].
    The returned value is strictly below the ratio of the median to the
    standard deviation. *)
Lemma snr_not_over_sample_std :
  exists a b : Q,
    snr sqrt_fix (opening3 (1, 1, 3)%Z) [1; 1; 4] (IntArr [1; 1; 1]%Z) false
        (RawLabel 1) = Ok (Some a) /\
    a == 1 / sqrt_fix (9 # 2) /\
    snr_spec sqrt_fix [1; 1; 4] = Some b /\
    b == 1 / sqrt_fix 3 /\
    a < b.
Proof.
  eexists. eexists.
  split; [vm_compute; reflexivity |].
  split; [vm_compute; reflexivity |].
  split; [vm_compute; reflexivity |].
  split; vm_compute; reflexivity.
Qed.

(** ** [cnr] *)

(** What [cnr] returns on the fallback path, with the default labels: the
    noise is the sum of the three MADs. *)
Lemma cnr_fallback_value (c : Q) (img : list Q) (seg : ndarray) :
  length img = arr_len seg ->
  fl_ltb (mad c (pick img (eq_int 0 seg))) 1 = true ->
  cnr c img seg None
  = Ok (fl_div
          (fl_abs (fl_sub (median (pick img (eq_int 2 seg)))
                          (median (pick img (eq_int 3 seg)))))
          (fl_add (fl_add (mad c (pick img (eq_int 2 seg)))
                          (mad c (pick img (eq_int 3 seg))))
                  (mad c (pick img (eq_int 1 seg))))).
Proof.
  intros Hlen Hlow. unfold cnr. cbv zeta beta iota.
  change (getitem FSL_FAST_LABELS "bg") with (Ok 0%Z : result Z).
  change (getitem FSL_FAST_LABELS "gm") with (Ok 2%Z : result Z).
  change (getitem FSL_FAST_LABELS "wm") with (Ok 3%Z : result Z).
  change (getitem FSL_FAST_LABELS "csf") with (Ok 1%Z : result Z).
  cbn [mbind result_bind].
  rewrite !bool_index_same_length by (rewrite length_eq_int; exact Hlen).
  cbn [mbind result_bind]. rewrite Hlow. reflexivity.
Qed.

(** C2, at a volume whose background is uniformly 0 (so that its MAD is
    below 1.0), with GM intensities 10, 12, 14, WM intensities 20, 24, 28
    and CSF intensities 1, 2, 3: the three MADs are 2/c, 4/c and 1/c; [cnr]
    divides the contrast 12 by their sum 7/c, the average being 7/(3c).
    The returned value is a third of the one with the averaged noise. *)
Lemma cnr_fallback_divides_by_sum :
  let img := [0; 0; 0; 10; 12; 14; 20; 24; 28; 1; 2; 3] in
  let seg := IntArr [0; 0; 0; 2; 2; 2; 3; 3; 3; 1; 1; 1]%Z in
  let c := Gaussian_ppf_075 in
  exists a b : Q,
    fl_ltb (mad c (pick img (eq_int 0 seg))) 1 = true /\
    cnr c img seg None = Ok (Some a) /\
    a == 12 / (2 / c + 4 / c + 1 / c) /\
    cnr_spec c (pick img (eq_int 2 seg)) (pick img (eq_int 3 seg))
               (pick img (eq_int 1 seg)) = Some b /\
    b == 12 / ((2 / c + 4 / c + 1 / c) / 3) /\
    b == 3 * a.
Proof.
  eexists. eexists.
  split; [vm_compute; reflexivity |].
  split; [vm_compute; reflexivity |].
  split; [vm_compute; reflexivity |].
  split; [vm_compute; reflexivity |].
  split; vm_compute; reflexivity.
Qed.

(** ** [summary_stats] *)

Lemma where_select_same_length (img : list Q) (m : list bool) :
  length m = length img -> where_select img m = Ok (pick img m).
Proof.
  revert img. induction m as [| b m IH]; intros [| x img] Hlen;
    try discriminate; try reflexivity.
  cbn in Hlen. injection Hlen as Hlen.
  cbn. rewrite (IH img Hlen). cbn. destruct b; reflexivity.
Qed.

Lemma percentile_nonempty (l : list Q) (p : Q) :
  l <> [] -> percentile l p = Ok (interpolate (sort l) p).
Proof.
  intros Hne. unfold percentile. pose proof (length_sort l) as Hlen.
  destruct (sort l) as [| y s]; [| reflexivity].
  destruct l; [congruence | discriminate Hlen].
Qed.

Lemma percentile_empty (p : Q) : percentile [] p = Raise IndexError.
Proof. reflexivity. Qed.

(** The statistics of a region that is not empty. *)
Lemma region_stats_nonempty (sqrtQ : Q -> Q) (sel : list Q) :
  sel <> [] ->
  region_stats sqrtQ sel
  = Ok {| st_mean := mean sel;
          st_stdv := std sqrtQ sel;
          st_p95 := Some (interpolate (sort sel) 95);
          st_p05 := Some (interpolate (sort sel) 5);
          st_k := kurtosis sel |}.
Proof.
  intros Hne. unfold region_stats.
  rewrite !(percentile_nonempty sel) by exact Hne. reflexivity.
Qed.

Lemma region_stats_empty (sqrtQ : Q -> Q) :
  region_stats sqrtQ [] = Raise IndexError.
Proof. reflexivity. Qed.

Lemma stats_of_label_at (sqrtQ : Q -> Q) (img : list Q) (pvms : list (list Q))
    (k : string) (lid : Z) (pvm : list Q) (st : tissue_stats)
    (output : gmap string tissue_stats) :
  py_index pvms lid = Ok pvm ->
  length pvm = length img ->
  region_stats sqrtQ (pick img (map (Qltb (1 # 2)) pvm)) = Ok st ->
  stats_of_label sqrtQ img pvms (k, lid) output = Ok (<[k := st]> output).
Proof.
  intros Hidx Hlen Hst. unfold stats_of_label. rewrite Hidx. cbn.
  rewrite where_select_same_length by (rewrite length_map; exact Hlen).
  cbn. rewrite Hst. reflexivity.
Qed.

Lemma on_grid_length (shape : nat * nat * nat) (a b : list Q) :
  on_grid shape a -> on_grid shape b -> length a = length b.
Proof. destruct shape as [[nx ny] nz]. cbn. intros -> ->. reflexivity. Qed.

Lemma squeezed_ndim_stack (shape : nat * nat * nat) (a b : list Q)
    (rest : list (list Q)) :
  unit_axes shape = 0%nat ->
  squeezed_ndim shape (PvmList (a :: b :: rest)) = 4%nat.
Proof. intros H. cbn. rewrite H. reflexivity. Qed.

(** A stack of four maps leaves [labels] unbound, whatever the maps and
    the background data; the caller's list has grown by one map. *)
Lemma summary_stats_four_maps (sqrtQ : Q -> Q) (shape : nat * nat * nat)
    (img bg csf gm wm : list Q) (bgdata : option (list Q)) :
  unit_axes shape = 0%nat ->
  same_size [bg; csf; gm; wm] = true ->
  summary_stats sqrtQ shape img (PvmList [bg; csf; gm; wm]) bgdata
  = (Raise UnboundLocalError,
     PvmList (set_background bgdata
                [sum_axis0 [bg; csf; gm; wm]; bg; csf; gm; wm])).
Proof.
  intros Hu Hsz. unfold summary_stats.
  rewrite (squeezed_ndim_stack shape bg csf [gm; wm] Hu), Hsz.
  cbn [Nat.eqb]. destruct bgdata; reflexivity.
Qed.

(** C3 (as stated), on a grid of 2 x 2 x 2 voxels: with four maps the call
    raises, while the call with the three tissue maps of the same data
    returns. *)
Lemma summary_stats_four_maps_raises :
  let shape := (2, 2, 2)%nat in
  let img := [1; 2; 3; 4; 5; 6; 7; 8] in
  let bg := [1; 1; 0; 0; 0; 0; 0; 0] in
  let csf := [0; 0; 1; 1; 0; 0; 0; 0] in
  let gm := [0; 0; 0; 0; 1; 1; 0; 0] in
  let wm := [0; 0; 0; 0; 0; 0; 1; 1] in
  (summary_stats sqrt_fix shape img (PvmList [bg; csf; gm; wm]) None).1
    = Raise UnboundLocalError /\
  exists out,
    (summary_stats sqrt_fix shape img (PvmList [csf; gm; wm]) None).1 = Ok out.
Proof.
  split; [reflexivity |].
  eexists. vm_compute. reflexivity.
Qed.

(** The call on a stack of three maps, once the statistics of the four
    regions are at hand. *)
Lemma summary_stats_stack (sqrtQ : Q -> Q) (shape : nat * nat * nat)
    (img csf gm wm : list Q) (bgdata : option (list Q))
    (st_csf st_gm st_wm st_bg : tissue_stats) :
  let region := fun pvm : list Q => pick img (map (Qltb (1 # 2)) pvm) in
  let bgmap :=
    match bgdata with
    | Some bg => bg
    | None => sum_axis0 [csf; gm; wm]
    end in
  unit_axes shape = 0%nat ->
  length csf = length img ->
  length gm = length img ->
  length wm = length img ->
  (forall bg, bgdata = Some bg -> length bg = length img) ->
  region_stats sqrtQ (region csf) = Ok st_csf ->
  region_stats sqrtQ (region gm) = Ok st_gm ->
  region_stats sqrtQ (region wm) = Ok st_wm ->
  region_stats sqrtQ (region bgmap) = Ok st_bg ->
  summary_stats sqrtQ shape img (PvmList [csf; gm; wm]) bgdata
  = (Ok (<["bg" := st_bg]>
           (<["wm" := st_wm]> (<["gm" := st_gm]> (<["csf" := st_csf]> ∅)))),
     PvmList [bgmap; csf; gm; wm]).
Proof.
  intros region bgmap Hu Hc Hg Hw Hbg Rc Rg Rw Rb.
  assert (Hsz : same_size [csf; gm; wm] = true).
  { cbn. rewrite Hg, Hw, Hc, Nat.eqb_refl. reflexivity. }
  assert (Hb : length bgmap = length img).
  { subst bgmap. destruct bgdata as [bg |]; [apply Hbg; reflexivity |].
    cbn. rewrite !length_zip_with. lia. }
  assert (Hfinal : set_background bgdata [sum_axis0 [csf; gm; wm]; csf; gm; wm]
                   = [bgmap; csf; gm; wm]).
  { subst bgmap. destruct bgdata; reflexivity. }
  unfold summary_stats.
  rewrite (squeezed_ndim_stack shape csf gm [wm] Hu), Hsz.
  cbn [Nat.eqb]. cbv zeta. rewrite Hfinal.
  unfold stats_loop. cbn [length Nat.eqb mbind result_bind for_each FSL_FAST_LABELS].
  rewrite (stats_of_label_at sqrtQ img [bgmap; csf; gm; wm] "csf" 1 csf _ ∅
             eq_refl Hc Rc).
  cbn [mbind result_bind].
  rewrite (stats_of_label_at sqrtQ img [bgmap; csf; gm; wm] "gm" 2 gm _ _
             eq_refl Hg Rg).
  cbn [mbind result_bind].
  rewrite (stats_of_label_at sqrtQ img [bgmap; csf; gm; wm] "wm" 3 wm _ _
             eq_refl Hw Rw).
  cbn [mbind result_bind].
  rewrite (stats_of_label_at sqrtQ img [bgmap; csf; gm; wm] "bg" 0 bgmap _ _
             eq_refl Hb Rb).
  reflexivity.
Qed.

(** C3 (amended): on a grid without an axis of length one, with the three
    tissue maps CSF, GM, WM and regions that are not empty, [summary_stats]
    returns, and the statistics of each tissue are those of the voxels
    where its own map exceeds 0.5; they are the same whether the background
    is summed from the maps or given as [bgdata].  The caller's list holds
    the background map in front afterwards. *)
Theorem summary_stats_three_maps (sqrtQ : Q -> Q) (shape : nat * nat * nat)
    (img csf gm wm : list Q) (bgdata : option (list Q)) :
  let region := fun pvm : list Q => pick img (map (Qltb (1 # 2)) pvm) in
  let bgmap :=
    match bgdata with
    | Some bg => bg
    | None => sum_axis0 [csf; gm; wm]
    end in
  unit_axes shape = 0%nat ->
  on_grid shape img ->
  on_grid shape csf -> on_grid shape gm -> on_grid shape wm ->
  (forall bg, bgdata = Some bg -> on_grid shape bg) ->
  region csf <> [] -> region gm <> [] -> region wm <> [] ->
  region bgmap <> [] ->
  exists out st_csf st_gm st_wm,
    summary_stats sqrtQ shape img (PvmList [csf; gm; wm]) bgdata
    = (Ok out, PvmList [bgmap; csf; gm; wm]) /\
    region_stats sqrtQ (region csf) = Ok st_csf /\
    out !! "csf" = Some st_csf /\
    region_stats sqrtQ (region gm) = Ok st_gm /\
    out !! "gm" = Some st_gm /\
    region_stats sqrtQ (region wm) = Ok st_wm /\
    out !! "wm" = Some st_wm.
Proof.
  intros region bgmap Hu Hi Gc Gg Gw Gbg Rc Rg Rw Rb.
  pose proof (on_grid_length shape csf img Gc Hi) as Hc.
  pose proof (on_grid_length shape gm img Gg Hi) as Hg.
  pose proof (on_grid_length shape wm img Gw Hi) as Hw.
  assert (Hbg : forall bg, bgdata = Some bg -> length bg = length img).
  { intros bg Hb. exact (on_grid_length shape bg img (Gbg bg Hb) Hi). }
  pose proof (region_stats_nonempty sqrtQ (region csf) Rc) as Sc.
  pose proof (region_stats_nonempty sqrtQ (region gm) Rg) as Sg.
  pose proof (region_stats_nonempty sqrtQ (region wm) Rw) as Sw.
  pose proof (region_stats_nonempty sqrtQ (region bgmap) Rb) as Sb.
  eexists. eexists. eexists. eexists.
  split.
  { exact (summary_stats_stack sqrtQ shape img csf gm wm bgdata _ _ _ _
             Hu Hc Hg Hw Hbg Sc Sg Sw Sb). }
  split; [exact Sc |].
  split; [reflexivity |].
  split; [exact Sg |].
  split; [reflexivity |].
  split; [exact Sw |].
  reflexivity.
Qed.

Lemma summary_stats_three_maps_witness :
  let img := [1; 2; 3; 4; 5; 6; 7; 8] in
  let csf := [0; 0; 1; 1; 0; 0; 0; 0] in
  let gm := [0; 0; 0; 0; 1; 1; 0; 0] in
  let wm := [0; 0; 0; 0; 0; 0; 1; 1] in
  let bg := [1; 1; 0; 0; 0; 0; 0; 0] in
  exists out st_csf st_gm st_wm,
    summary_stats sqrt_fix (2, 2, 2)%nat img (PvmList [csf; gm; wm]) (Some bg)
    = (Ok out, PvmList [bg; csf; gm; wm]) /\
    region_stats sqrt_fix [3; 4] = Ok st_csf /\
    out !! "csf" = Some st_csf /\
    region_stats sqrt_fix [5; 6] = Ok st_gm /\
    out !! "gm" = Some st_gm /\
    region_stats sqrt_fix [7; 8] = Ok st_wm /\
    out !! "wm" = Some st_wm.
Proof.
  intros img csf gm wm bg.
  apply (summary_stats_three_maps sqrt_fix (2, 2, 2)%nat img csf gm wm (Some bg));
    try reflexivity; try discriminate.
  intros bg' [= <-]. reflexivity.
Defined.

(** ** [volume_fraction] *)

Lemma Qsum_nonneg (l : list Q) :
  Forall (fun v => 0 <= v <= 1) l -> 0 <= Qsum l.
Proof.
  induction 1 as [| v l [Hv _] _ IH].
  - cbn. lra.
  - change (0 <= v + Qsum l). lra.
Qed.

Lemma fraction_bounds (s t : Q) : 0 <= s -> s <= t -> 0 < t -> 0 <= s / t <= 1.
Proof.
  intros Hs Hst Ht. split.
  - apply Qle_shift_div_l; [exact Ht | lra].
  - apply Qle_shift_div_r; [exact Ht | lra].
Qed.

(** C4: for three tissue maps with values in [[0, 1]] and a positive total,
    [volume_fraction] returns one fraction per tissue, each within
    [[0, 1]], and the three add up to 1. *)
Theorem volume_fraction_sums_to_one (csf gm wm : list Q) :
  Forall (fun v => 0 <= v <= 1) csf ->
  Forall (fun v => 0 <= v <= 1) gm ->
  Forall (fun v => 0 <= v <= 1) wm ->
  0 < Qsum csf + Qsum gm + Qsum wm ->
  exists f_csf f_gm f_wm : Q,
    volume_fraction [csf; gm; wm]
    = Ok (<["wm" := Some f_wm]> (<["gm" := Some f_gm]> (<["csf" := Some f_csf]> ∅))) /\
    0 <= f_csf <= 1 /\ 0 <= f_gm <= 1 /\ 0 <= f_wm <= 1 /\
    f_csf + f_gm + f_wm == 1.
Proof.
  intros Hc Hg Hw Htot.
  apply Qsum_nonneg in Hc, Hg, Hw.
  set (total := 0 + Qsum csf + Qsum gm + Qsum wm).
  assert (Ht : 0 < total) by (subst total; lra).
  assert (Hnz : Qeq_bool total 0 = false).
  { destruct (Qeq_bool total 0) eqn:E; [| reflexivity].
    apply Qeq_bool_iff in E. lra. }
  exists (Qsum csf / total), (Qsum gm / total), (Qsum wm / total).
  split.
  - unfold volume_fraction. cbn -[Qsum Qplus py_index].
    change (py_index [csf; gm; wm] (1 - 1)) with (Ok csf).
    change (py_index [csf; gm; wm] (2 - 1)) with (Ok gm).
    change (py_index [csf; gm; wm] (3 - 1)) with (Ok wm).
    cbn -[Qsum Qplus].
    rewrite !fmap_insert, fmap_empty. cbn -[Qsum Qplus].
    fold total. rewrite Hnz. reflexivity.
  - split; [apply fraction_bounds; subst total; lra |].
    split; [apply fraction_bounds; subst total; lra |].
    split; [apply fraction_bounds; subst total; lra |].
    subst total. field. lra.
Qed.

Lemma volume_fraction_sums_to_one_witness :
  exists f_csf f_gm f_wm : Q,
    volume_fraction [[1; 0; 0; 1 # 2]; [0; 1; 0; 1 # 4]; [0; 0; 1; 1 # 4]]
    = Ok (<["wm" := Some f_wm]> (<["gm" := Some f_gm]> (<["csf" := Some f_csf]> ∅))) /\
    0 <= f_csf <= 1 /\ 0 <= f_gm <= 1 /\ 0 <= f_wm <= 1 /\
    f_csf + f_gm + f_wm == 1.
Proof.
  apply (volume_fraction_sums_to_one
           [1; 0; 0; 1 # 2] [0; 1; 0; 1 # 4] [0; 0; 1; 1 # 4]).
  - repeat constructor; cbn; lra.
  - repeat constructor; cbn; lra.
  - repeat constructor; cbn; lra.
  - reflexivity.
Defined.

(** ** [art_qi2] *)

Lemma touch_exists (path : string) (fs : gmap string string) :
  is_Some (touch path fs !! path).
Proof.
  unfold touch. destruct (fs !! path) as [c |] eqn:E.
  - rewrite E. eauto.
  - rewrite lookup_insert_eq. eauto.
Qed.

Lemma touch_other (path p : string) (fs : gmap string string) :
  p <> path -> touch path fs !! p = fs !! p.
Proof.
  intros Hne. unfold touch. destruct (fs !! path); [reflexivity |].
  apply lookup_insert_ne. congruence.
Qed.

(** When the diagnostic file cannot be opened, [art_qi2] raises before it
    looks at the data, and the file system is as it was. *)
Lemma art_qi2_unwritable (erosion : list bool -> list bool)
    (abspath : string -> string) (chi_fit : list Q -> Z -> fl * (fl -> string))
    (openable : string -> bool)
    (img : list Q) (airmask : ndarray) (ncoils : Z) (erodemask : bool)
    (out_file : string) (min_voxels : Q) (fs : gmap string string) :
  openable (abspath out_file) = false ->
  art_qi2 erosion abspath chi_fit openable img airmask ncoils erodemask
          out_file min_voxels fs = (Raise OSError, fs).
Proof. intros H. unfold art_qi2. rewrite H. reflexivity. Qed.

Lemma art_qi2_opened (erosion : list bool -> list bool)
    (abspath : string -> string) (chi_fit : list Q -> Z -> fl * (fl -> string))
    (openable : string -> bool)
    (img : list Q) (airmask : ndarray) (ncoils : Z) (erodemask : bool)
    (out_file : string) (min_voxels : Q) (fs : gmap string string) :
  openable (abspath out_file) = true ->
  art_qi2 erosion abspath chi_fit openable img airmask ncoils erodemask
          out_file min_voxels fs
  = art_qi2 erosion abspath chi_fit (fun _ => true) img airmask ncoils
            erodemask out_file min_voxels fs.
Proof. intros H. unfold art_qi2. rewrite H. reflexivity. Qed.

(** C5: when the diagnostic file can be opened and the air region (eroded
    if asked) holds fewer than [min_voxels] positive intensities, [art_qi2]
    returns 0.0 with the absolute path of the diagnostic file, and that
    file exists afterwards; no other file is touched. *)
Theorem art_qi2_short_circuit (erosion : list bool -> list bool)
    (abspath : string -> string) (chi_fit : list Q -> Z -> fl * (fl -> string))
    (openable : string -> bool)
    (img : list Q) (airmask : ndarray) (ncoils : Z) (erodemask : bool)
    (out_file : string) (min_voxels : Q) (fs : gmap string string) :
  let air :=
    if erodemask then astype_uint8 (erosion (nonzero airmask)) else airmask in
  let positive := filter (fun x => Qltb 0 x = true) (pick img (gt0 air)) in
  openable (abspath out_file) = true ->
  length img = length (gt0 air) ->
  inject_Z (Z.of_nat (length positive)) < min_voxels ->
  exists fs',
    art_qi2 erosion abspath chi_fit openable img airmask ncoils erodemask out_file
            min_voxels fs
    = (Ok (Some 0, abspath out_file), fs') /\
    is_Some (fs' !! abspath out_file) /\
    forall p, p <> abspath out_file -> fs' !! p = fs !! p.
Proof.
  intros air positive Hopen Hlen Hfew.
  exists (touch (abspath out_file) fs).
  split; [| split].
  - rewrite art_qi2_opened by exact Hopen. unfold art_qi2. fold air.
    cbn [negb].
    rewrite (bool_index_same_length _ _ Hlen). fold positive.
    apply Qltb_lt in Hfew. rewrite Hfew. reflexivity.
  - apply touch_exists.
  - intros p Hp. apply touch_other. exact Hp.
Qed.

Lemma art_qi2_short_circuit_witness :
  exists fs',
    art_qi2 (erosion3 (3, 3, 3)%Z) (abspath_from "/work") chi_fit_nan
      (openable_under "/work") (repeat 5 27) (IntArr (repeat 1%Z 27)) 12 true "qi2_fitting.txt" 1000 ∅
    = (Ok (Some 0, "/work/qi2_fitting.txt"), fs') /\
    is_Some (fs' !! "/work/qi2_fitting.txt") /\
    forall p, p <> "/work/qi2_fitting.txt" -> fs' !! p = (∅ : gmap string string) !! p.
Proof.
  apply (art_qi2_short_circuit (erosion3 (3, 3, 3)%Z) (abspath_from "/work")
           chi_fit_nan (openable_under "/work") (repeat 5 27)
           (IntArr (repeat 1%Z 27)) 12 true "qi2_fitting.txt" 1000 ∅).
  - reflexivity.
  - reflexivity.
  - reflexivity.
Defined.

(** ** [snr_dietrich] *)

(** C6: with [scale] the MAD of the air intensities times the root of
    [2 / (4 - pi)], [snr_dietrich] returns -1.0 when [scale < 1e-3] and the
    foreground median over [scale] otherwise (a [nan] scale is not below the
    threshold and gives [nan]). *)
Theorem snr_dietrich_value (sqrtQ : Q -> Q) (opening : list bool -> list bool)
    (mad_c : Q) (img : list Q) (smask airmask : ndarray) (erode : bool)
    (fglabel : label) (l : Z) (fgmask bgmask : ndarray) :
  resolve_label fglabel = Ok l ->
  _prepare_mask opening smask (RawLabel l) erode = Ok fgmask ->
  _prepare_mask opening airmask (RawLabel 1) erode = Ok bgmask ->
  length img = length (gt0 fgmask) ->
  length img = length (gt0 bgmask) ->
  let fg_median := median (pick img (gt0 fgmask)) in
  let scale :=
    fl_mul (mad mad_c (pick img (gt0 bgmask)))
           (fl_sqrt sqrtQ (Some (2 / (4 - pi)))) in
  let returned :=
    snr_dietrich sqrtQ opening mad_c img smask airmask erode fglabel in
  (forall s, scale = Some s -> s < 1 # 1000 -> returned = Ok (Some (-1))) /\
  (forall s, scale = Some s -> ~ s < 1 # 1000 ->
     returned = Ok (fl_div fg_median (Some s))) /\
  (scale = None -> returned = Ok (fl_div fg_median None)).
Proof.
  intros Hl Hfg Hbg Hlf Hlb fg_median scale returned.
  assert (Hret : returned =
                 if fl_ltb scale (1 # 1000) then Ok (Some (-1))
                 else Ok (fl_div fg_median scale)).
  { subst returned. unfold snr_dietrich.
    rewrite Hl. cbn -[pi]. rewrite Hfg. cbn -[pi]. rewrite Hbg. cbn -[pi].
    rewrite (bool_index_same_length _ _ Hlf). cbn -[pi].
    rewrite (bool_index_same_length _ _ Hlb). cbn -[pi].
    reflexivity. }
  rewrite Hret. split; [| split].
  - intros s Hs Hlt. rewrite Hs. cbn.
    apply Qltb_lt in Hlt. rewrite Hlt. reflexivity.
  - intros s Hs Hge. rewrite Hs. cbn.
    destruct (Qltb s (1 # 1000)) eqn:E; [| reflexivity].
    apply Qltb_lt in E. contradiction.
  - intros Hs. rewrite Hs. reflexivity.
Qed.

Lemma snr_dietrich_value_witness :
  snr_dietrich sqrt_fix (opening3 (1, 2, 3)%Z) Gaussian_ppf_075
    [100; 100; 100; 0; 0; 0] (IntArr [1; 1; 1; 0; 0; 0]%Z)
    (IntArr [0; 0; 0; 1; 1; 1]%Z) false (RawLabel 1)
  = Ok (Some (-1)) /\
  exists s : Q,
    fl_mul (mad Gaussian_ppf_075 [0; 2; 4])
           (fl_sqrt sqrt_fix (Some (2 / (4 - pi)))) = Some s /\
    snr_dietrich sqrt_fix (opening3 (1, 2, 3)%Z) Gaussian_ppf_075
      [100; 101; 102; 0; 2; 4] (FloatArr [1; 1; 1; 0; 0; 0])
      (FloatArr [0; 0; 0; 1; 1; 1]) false (NamedLabel "csf")
    = Ok (fl_div (Some 101) (Some s)).
Proof.
  split.
  - eapply (proj1 (snr_dietrich_value sqrt_fix (opening3 (1, 2, 3)%Z)
                    Gaussian_ppf_075 [100; 100; 100; 0; 0; 0]
                    (IntArr [1; 1; 1; 0; 0; 0]%Z) (IntArr [0; 0; 0; 1; 1; 1]%Z)
                    false (RawLabel 1) 1%Z
                    (IntArr [1; 1; 1; 0; 0; 0]%Z) (IntArr [0; 0; 0; 1; 1; 1]%Z)
                    eq_refl eq_refl eq_refl eq_refl eq_refl)).
    + reflexivity.
    + reflexivity.
  - eexists. split; [reflexivity |].
    apply (proj1 (proj2 (snr_dietrich_value sqrt_fix (opening3 (1, 2, 3)%Z)
                    Gaussian_ppf_075 [100; 101; 102; 0; 2; 4]
                    (FloatArr [1; 1; 1; 0; 0; 0]) (FloatArr [0; 0; 0; 1; 1; 1])
                    false (NamedLabel "csf") 1%Z
                    (FloatArr [1; 1; 1; 0; 0; 0]) (FloatArr [0; 0; 0; 1; 1; 1])
                    eq_refl eq_refl eq_refl eq_refl eq_refl))).
    + reflexivity.
    + intros H. vm_compute in H. discriminate H.
Defined.

(** ** [_prepare_mask] *)

(** C7 (as stated): a voxel whose value is exactly 0.95 is not above the
    threshold of the first assignment and is zeroed by the second. *)
Lemma prepare_mask_at_threshold :
  _prepare_mask (opening3 (1, 1, 1)%Z) (FloatArr [95 # 100]) (RawLabel 1) false
  = Ok (FloatArr [0]).
Proof. reflexivity. Qed.

(** C7 (amended): on a mask of probabilities, without opening, a voxel
    above 0.95 becomes 1 and a voxel at or below 0.95 becomes 0; with
    opening, the opening is applied to the voxels above 0.95. *)
Theorem prepare_mask_threshold (opening : list bool -> list bool) (a : list Q)
    (l : label) :
  (exists b,
     _prepare_mask opening (FloatArr a) l false = Ok (FloatArr b) /\
     length b = length a /\
     forall (i : nat) (v : Q), a !! i = Some v ->
       (95 # 100 < v -> b !! i = Some 1) /\
       (v <= 95 # 100 -> b !! i = Some 0)) /\
  _prepare_mask opening (FloatArr a) l true
  = Ok (astype_uint8 (opening (map (Qltb (95 # 100)) a))).
Proof.
  unfold _prepare_mask. rewrite binarize_float. cbn. split.
  - eexists. split; [reflexivity |]. split; [apply length_map |].
    intros i v Hv. rewrite list_lookup_fmap, Hv. cbn. split.
    + intros H. apply Qltb_lt in H. rewrite H. reflexivity.
    + intros H. apply Qltb_ge in H. rewrite H. reflexivity.
  - do 3 f_equal. rewrite map_map. apply map_ext. intros v.
    destruct (Qltb (95 # 100) v); reflexivity.
Qed.

Lemma prepare_mask_threshold_witness :
  exists b,
    _prepare_mask (opening3 (1, 1, 4)%Z)
      (FloatArr [95 # 100; 96 # 100; 1; 3 # 10]) (RawLabel 1) false
    = Ok (FloatArr b) /\
    b !! 0%nat = Some 0 /\ b !! 1%nat = Some 1.
Proof.
  destruct (proj1 (prepare_mask_threshold (opening3 (1, 1, 4)%Z)
                     [95 # 100; 96 # 100; 1; 3 # 10] (RawLabel 1)))
    as (b & Hb & _ & Hv).
  exists b. split; [exact Hb |]. split.
  - apply (proj2 (Hv 0%nat (95 # 100) eq_refl)). apply Qle_refl.
  - apply (proj1 (Hv 1%nat (96 # 100) eq_refl)). reflexivity.
Defined.

(** ** [cjv] *)

Lemma gt_half_label_mask (lid : Z) (seg : ndarray) :
  gt_half (label_mask lid seg) = eq_int lid seg.
Proof.
  destruct seg as [a | a]; cbn; rewrite map_map; apply map_ext; intros v.
  - destruct (v =? lid)%Z; reflexivity.
  - destruct (Qeq_bool v (inject_Z lid)); reflexivity.
Qed.

Lemma resolve_label_raises (l : label) (e : exn) :
  resolve_label l = Raise e -> e = KeyError.
Proof.
  destruct l as [s | z]; cbn; [| discriminate].
  unfold getitem. destruct (assoc s FSL_FAST_LABELS); congruence.
Qed.

Lemma bool_index_raises (img : list Q) (m : list bool) (e : exn) :
  bool_index img m = Raise e -> e = IndexError.
Proof.
  unfold bool_index. destruct (length img =? length m)%nat; congruence.
Qed.

Lemma cjv_of_masks_no_RuntimeError (mad_c : Q) (img : list Q) (w g : ndarray) :
  cjv_of_masks mad_c img w g <> Raise RuntimeError.
Proof.
  unfold cjv_of_masks.
  destruct (bool_index img (gt_half w)) as [ws | e] eqn:Ew; cbn.
  - destruct (bool_index img (gt_half g)) as [gs | e] eqn:Eg; cbn; [discriminate |].
    apply bool_index_raises in Eg. congruence.
  - apply bool_index_raises in Ew. congruence.
Qed.

(** C8: [cjv] raises [RuntimeError] exactly when no segmentation is given
    and one of the two masks is missing.  With a segmentation (and labels
    of the table), or with both masks, it returns
    [(MAD(WM) + MAD(GM)) / (median(WM) - median(GM))]. *)
Theorem cjv_contract (mad_c : Q) (img : list Q) (seg wmmask gmmask : option ndarray)
    (wmlabel gmlabel : label) :
  (cjv mad_c img seg wmmask gmmask wmlabel gmlabel = Raise RuntimeError <->
   seg = None /\ (wmmask = None \/ gmmask = None)) /\
  (forall s lw lg,
     seg = Some s ->
     resolve_label wmlabel = Ok lw ->
     resolve_label gmlabel = Ok lg ->
     length img = arr_len s ->
     let wm := pick img (eq_int lw s) in
     let gm := pick img (eq_int lg s) in
     cjv mad_c img seg wmmask gmmask wmlabel gmlabel
     = Ok (fl_div (fl_add (mad mad_c wm) (mad mad_c gm))
                  (fl_sub (median wm) (median gm)))) /\
  (forall w g,
     seg = None -> wmmask = Some w -> gmmask = Some g ->
     length img = arr_len w ->
     length img = arr_len g ->
     let wm := pick img (gt_half w) in
     let gm := pick img (gt_half g) in
     cjv mad_c img seg wmmask gmmask wmlabel gmlabel
     = Ok (fl_div (fl_add (mad mad_c wm) (mad mad_c gm))
                  (fl_sub (median wm) (median gm)))).
Proof.
  split; [| split].
  - unfold cjv. destruct seg as [s |]; cbn.
    + split; [| intros [[=] _]].
      destruct (resolve_label wmlabel) as [lw | e] eqn:Ew; cbn.
      * destruct (resolve_label gmlabel) as [lg | e] eqn:Eg; cbn.
        -- intros H. exfalso.
           exact (cjv_of_masks_no_RuntimeError mad_c img _ _ H).
        -- apply resolve_label_raises in Eg. congruence.
      * apply resolve_label_raises in Ew. congruence.
    + destruct wmmask as [w |], gmmask as [g |]; cbn;
        try (split; [reflexivity || (intros _; split; [reflexivity | auto]) | reflexivity]).
      split; [| intros [_ [[=] | [=]]]].
      intros H. exfalso.
      exact (cjv_of_masks_no_RuntimeError mad_c img _ _ H).
  - intros s lw lg -> Hw Hg Hlen wm gm. unfold cjv. cbn.
    rewrite Hw. cbn. rewrite Hg. cbn.
    rewrite !gt_half_label_mask.
    rewrite !bool_index_same_length by (rewrite length_eq_int; exact Hlen).
    reflexivity.
  - intros w g -> -> -> Hw Hg wm gm. unfold cjv. cbn.
    rewrite !bool_index_same_length by (rewrite length_gt_half; assumption).
    reflexivity.
Qed.

Lemma cjv_contract_witness :
  let c := Gaussian_ppf_075 in
  let img := [10; 12; 14; 20; 24; 28] in
  let seg := IntArr [2; 2; 2; 3; 3; 3]%Z in
  cjv c img None (Some seg) None (NamedLabel "wm") (NamedLabel "gm")
  = Raise RuntimeError /\
  cjv c img (Some seg) None None (NamedLabel "wm") (NamedLabel "gm")
  = Ok (fl_div (fl_add (mad c [20; 24; 28]) (mad c [10; 12; 14]))
               (fl_sub (median [20; 24; 28]) (median [10; 12; 14]))) /\
  cjv c img None (Some (FloatArr [0; 0; 0; 1; 1; 1]))
      (Some (FloatArr [1; 1; 1; 0; 0; 0])) (NamedLabel "wm") (NamedLabel "gm")
  = Ok (fl_div (fl_add (mad c [20; 24; 28]) (mad c [10; 12; 14]))
               (fl_sub (median [20; 24; 28]) (median [10; 12; 14]))).
Proof.
  intros c img seg. split; [| split].
  - apply (proj1 (cjv_contract c img None (Some seg) None
                    (NamedLabel "wm") (NamedLabel "gm"))).
    split; [reflexivity | right; reflexivity].
  - apply (proj1 (proj2 (cjv_contract c img (Some seg) None None
                           (NamedLabel "wm") (NamedLabel "gm")))
             seg 3%Z 2%Z eq_refl eq_refl eq_refl eq_refl).
  - apply (proj2 (proj2 (cjv_contract c img None
                           (Some (FloatArr [0; 0; 0; 1; 1; 1]))
                           (Some (FloatArr [1; 1; 1; 0; 0; 0]))
                           (NamedLabel "wm") (NamedLabel "gm")))
             (FloatArr [0; 0; 0; 1; 1; 1]) (FloatArr [1; 1; 1; 0; 0; 0])
             eq_refl eq_refl eq_refl eq_refl eq_refl).
Defined.

(** ** [upload_qc_metrics] *)

Lemma known_modality_inv (v : WebAPI.json) :
  WebAPI.known_modality v = true ->
  v = WebAPI.JStr "T1w" \/ v = WebAPI.JStr "bold".
Proof.
  destruct v as [| b | q | s | l | d]; cbn; try discriminate.
  intros H. apply orb_true_iff in H as [H | H]; apply String.eqb_eq in H;
    subst s; auto.
Qed.

(** C9: when [metadata] is an object whose [modality] is neither the text
    [T1w] nor the text [bold] (or is missing), nothing is posted and the
    function returns an object with status 1 and an error message. *)
Theorem upload_rejects_unknown_modality
    (dumps : gmap string WebAPI.json -> string)
    (py_str : WebAPI.json -> string)
    (http_post : WebAPI.request -> WebAPI.post_outcome)
    (in_data metadata : gmap string WebAPI.json) (addr : string) (port : Z)
    (email : option string) :
  in_data !! "metadata" = Some (WebAPI.JObj metadata) ->
  metadata !! "modality" <> Some (WebAPI.JStr "T1w") ->
  metadata !! "modality" <> Some (WebAPI.JStr "bold") ->
  exists msg : string,
    WebAPI.upload_qc_metrics dumps py_str http_post in_data addr port email
    = ([], Ok {| WebAPI.status_code := 1; WebAPI.text := msg |}).
Proof.
  intros Hmeta Ht1 Hbold. unfold WebAPI.upload_qc_metrics. rewrite Hmeta.
  destruct (WebAPI.known_modality
              (default (WebAPI.JStr "None") (metadata !! "modality"))) eqn:E.
  - exfalso. apply known_modality_inv in E.
    destruct (metadata !! "modality") as [v |]; cbn in E.
    + destruct E as [-> | ->]; [apply Ht1 | apply Hbold]; reflexivity.
    + destruct E as [E | E]; discriminate E.
  - cbn. eexists. reflexivity.
Qed.

Lemma upload_rejects_unknown_modality_witness :
  exists msg : string,
    WebAPI.upload_qc_metrics dumps_keys str_scalar http_created
      (<["metadata" := WebAPI.JObj (<["modality" := WebAPI.JStr "dwi"]> ∅)]>
         (<["snr" := WebAPI.JNum 12]> ∅))
      "localhost" 5000 None
    = ([], Ok {| WebAPI.status_code := 1; WebAPI.text := msg |}).
Proof.
  apply (upload_rejects_unknown_modality dumps_keys str_scalar http_created
           (<["metadata" := WebAPI.JObj (<["modality" := WebAPI.JStr "dwi"]> ∅)]>
              (<["snr" := WebAPI.JNum 12]> ∅))
           (<["modality" := WebAPI.JStr "dwi"]> ∅) "localhost" 5000 None).
  - reflexivity.
  - intros H. vm_compute in H. discriminate H.
  - intros H. vm_compute in H. discriminate H.
Defined.

(** Without a [metadata] entry the lookup itself raises. *)
Lemma upload_without_metadata_raises
    (dumps : gmap string WebAPI.json -> string)
    (py_str : WebAPI.json -> string)
    (http_post : WebAPI.request -> WebAPI.post_outcome)
    (in_data : gmap string WebAPI.json) (addr : string) (port : Z)
    (email : option string) :
  in_data !! "metadata" = None ->
  WebAPI.upload_qc_metrics dumps py_str http_post in_data addr port email
  = ([], Raise KeyError).
Proof.
  intros H. unfold WebAPI.upload_qc_metrics. rewrite H. reflexivity.
Qed.

(** A connection failure is reported the same way, after the request went
    out. *)
Example upload_connection_error :
  exists req msg,
    WebAPI.upload_qc_metrics dumps_keys str_scalar http_unreachable
      (<["metadata" := WebAPI.JObj (<["modality" := WebAPI.JStr "bold"]> ∅)]>
         (<["snr" := WebAPI.JNum 12]> ∅))
      "localhost" 5000 None
    = ([req], Ok {| WebAPI.status_code := 1; WebAPI.text := msg |}) /\
    WebAPI.url req = "http://localhost:5000/bold".
Proof.
  eexists. eexists. split; vm_compute; reflexivity.
Qed.

(** With a known modality and no [settings], exactly one request goes out,
    to the endpoint of that modality. *)
Lemma upload_posts_known_modality
    (dumps : gmap string WebAPI.json -> string)
    (py_str : WebAPI.json -> string)
    (http_post : WebAPI.request -> WebAPI.post_outcome)
    (in_data metadata : gmap string WebAPI.json) (addr : string) (port : Z)
    (email : option string) (m : string) :
  in_data !! "metadata" = Some (WebAPI.JObj metadata) ->
  in_data !! "settings" = None ->
  metadata !! "modality" = Some (WebAPI.JStr m) ->
  m = "T1w" \/ m = "bold" ->
  exists req,
    (WebAPI.upload_qc_metrics dumps py_str http_post in_data addr port email).1
    = [req] /\
    WebAPI.url req = "http://" ++ addr ++ ":" ++ pretty port ++ "/" ++ m.
Proof.
  intros Hmeta Hset Hmod Hm. unfold WebAPI.upload_qc_metrics.
  rewrite Hmeta, Hmod, Hset. cbn -[pretty WebAPI.whitelisted].
  assert (Hk : (String.eqb m "T1w" || String.eqb m "bold") = true).
  { destruct Hm as [-> | ->]; reflexivity. }
  rewrite Hk. cbn -[pretty WebAPI.whitelisted].
  match goal with
  | |- context [http_post ?r] => destruct (http_post r); eexists; split; reflexivity
  end.
Qed.

(** ** [rpve] *)

Lemma ST_bind_Ok {A B : Type} (m : ST A) (f : A -> ST B) (h h' : heap) (a : A) :
  m h = (Ok a, h') -> (m ≫= f) h = f a h'.
Proof. intros H. unfold mbind, ST_bind. rewrite H. reflexivity. Qed.

Lemma ST_bind_Raise {A B : Type} (m : ST A) (f : A -> ST B) (h h' : heap) (e : exn) :
  m h = (Raise e, h') -> (m ≫= f) h = (Raise e, h').
Proof. intros H. unfold mbind, ST_bind. rewrite H. reflexivity. Qed.

Lemma deref_last (h : heap) (a : ndarray) :
  deref (length h) (h ++ [a])%list = (Ok a, (h ++ [a])%list).
Proof.
  unfold deref. rewrite list_lookup_middle by reflexivity. reflexivity.
Qed.

Lemma setitem_inplace_last (h : heap) (y : list Q) (test : Q -> bool) (v : Q) :
  setitem_inplace (length h) test v (h ++ [FloatArr y])%list
  = (Ok tt, (h ++ [FloatArr (setitem_where test v y)])%list).
Proof.
  unfold setitem_inplace.
  rewrite (ST_bind_Ok _ _ _ _ _ (deref_last h (FloatArr y))).
  unfold store. f_equal.
  rewrite insert_app_r_alt by lia. rewrite Nat.sub_diag. reflexivity.
Qed.

Lemma positive_part_cons (x : Q) (a : list Q) :
  positive_part (x :: a) = if Qltb 0 x then x :: positive_part a else positive_part a.
Proof. reflexivity. Qed.

(** After clipping, the positive values of a region are its partial
    volumes: there are some exactly when the region has one. *)
Lemma positive_part_clipped (pvm : list Q) (m : list bool) :
  if has_partial (pick pvm m)
  then positive_part (clipped pvm m) <> []
  else positive_part (clipped pvm m) = [].
Proof.
  unfold clipped. induction (pick pvm m) as [| x sel IH]; [reflexivity |].
  cbn [has_partial existsb setitem_where map].
  fold (setitem_where (fun x => Qltb x 0) 0 sel).
  fold (setitem_where (fun x => Qle_bool 1 x) 0
          (setitem_where (fun x => Qltb x 0) 0 sel)).
  fold (has_partial sel).
  rewrite positive_part_cons.
  destruct (Qltb 0 x) eqn:E0.
  - apply Qltb_lt in E0.
    assert (En : Qltb x 0 = false) by (apply Qltb_ge; lra).
    rewrite En. destruct (Qltb x 1) eqn:E1.
    + apply Qltb_lt in E1.
      assert (El : Qle_bool 1 x = false).
      { destruct (Qle_bool 1 x) eqn:El; [| reflexivity].
        apply Qle_bool_iff in El. lra. }
      rewrite El. cbn [andb orb].
      assert (Ep : Qltb 0 x = true) by (apply Qltb_lt; exact E0).
      rewrite Ep. discriminate.
    + apply Qltb_ge in E1.
      assert (El : Qle_bool 1 x = true) by (apply Qle_bool_iff; exact E1).
      rewrite El. cbn [andb orb]. change (Qltb 0 0) with false. exact IH.
  - apply Qltb_ge in E0. cbn [andb orb].
    destruct (Qltb x 0) eqn:En.
    + change (Qle_bool 1 0) with false. change (Qltb 0 0) with false. exact IH.
    + apply Qltb_ge in En.
      destruct (Qle_bool 1 x) eqn:El.
      * change (Qltb 0 0) with false. exact IH.
      * assert (Ep : Qltb 0 x = false) by (apply Qltb_ge; exact E0).
        rewrite Ep. exact IH.
Qed.

(** The trimmed sum is defined exactly for the regions that hold a partial
    volume; for the others the percentile of an empty selection raises. *)
Lemma trimmed_sum_partial (pvm : list Q) (m : list bool) :
  has_partial (pick pvm m) = true -> exists t, trimmed_sum pvm m = Ok t.
Proof.
  intros Hp. pose proof (positive_part_clipped pvm m) as Hc. rewrite Hp in Hc.
  unfold trimmed_sum. cbv zeta.
  rewrite !(percentile_nonempty _ _ Hc). eexists. reflexivity.
Qed.

Lemma trimmed_sum_crisp (pvm : list Q) (m : list bool) :
  has_partial (pick pvm m) = false -> trimmed_sum pvm m = Raise IndexError.
Proof.
  intros Hp. pose proof (positive_part_clipped pvm m) as Hc. rewrite Hp in Hc.
  unfold trimmed_sum. cbv zeta. rewrite Hc. reflexivity.
Qed.

(** One round of the loop on a tissue whose map is on the grid of the
    segmentation: one new array is appended to the store, and the round
    returns or raises as the trimmed sum does. *)
Lemma rpve_tissue_at (pvms : list loc) (seg : loc) (k : string) (lid : Z)
    (pvfs : gmap string Q) (h : heap) (pvm : loc) (a s : ndarray) :
  lid <> 0%Z ->
  py_index pvms (lid - 1) = Ok pvm ->
  h !! pvm = Some a ->
  h !! seg = Some s ->
  length (floats a) = length (eq_int lid s) ->
  exists x,
    rpve_tissue pvms seg (k, lid) pvfs h
    = (t ← trimmed_sum (floats a) (eq_int lid s); Ok (<[k := t]> pvfs),
       (h ++ [x])%list).
Proof.
  intros Hl Hp Ha Hs Hlen.
  unfold rpve_tissue.
  rewrite (proj2 (Z.eqb_neq lid 0) Hl), Hp.
  rewrite (ST_bind_Ok _ _ h h pvm) by reflexivity.
  rewrite (ST_bind_Ok _ _ h h s) by (unfold deref; rewrite Hs; reflexivity).
  pose proof (bool_index_same_length _ _ Hlen) as Hb.
  rewrite (ST_bind_Ok _ _ h (h ++ [FloatArr (pick (floats a) (eq_int lid s))])%list
             (length h)).
  2:{ unfold getitem_mask.
      rewrite (ST_bind_Ok _ _ h h a) by (unfold deref; rewrite Ha; reflexivity).
      rewrite (ST_bind_Ok _ _ h h _) by (unfold lift; rewrite Hb; reflexivity).
      reflexivity. }
  rewrite (ST_bind_Ok _ _ _ _ _ (setitem_inplace_last h _ _ _)).
  rewrite (ST_bind_Ok _ _ _ _ _ (setitem_inplace_last h _ _ _)).
  rewrite (ST_bind_Ok _ _ _ _ _ (deref_last h _)).
  cbn [floats]. unfold trimmed_sum. cbv zeta.
  fold (clipped (floats a) (eq_int lid s)).
  destruct (percentile (positive_part (clipped (floats a) (eq_int lid s))) 98)
    as [upth | e] eqn:Eu.
  2:{ eexists. apply ST_bind_Raise. reflexivity. }
  rewrite (ST_bind_Ok _ _ _ _ upth) by reflexivity.
  destruct (percentile (positive_part (clipped (floats a) (eq_int lid s))) 2)
    as [loth | e] eqn:Eo.
  2:{ eexists. apply ST_bind_Raise. reflexivity. }
  rewrite (ST_bind_Ok _ _ _ _ loth) by reflexivity.
  rewrite (ST_bind_Ok _ _ _ _ _ (setitem_inplace_last h _ _ _)).
  rewrite (ST_bind_Ok _ _ _ _ _ (setitem_inplace_last h _ _ _)).
  rewrite (ST_bind_Ok _ _ _ _ _ (deref_last h _)).
  cbn [floats]. eexists. reflexivity.
Qed.




Lemma length_floats (a : ndarray) : length (floats a) = arr_len a.
Proof. destruct a; cbn; [apply length_map | reflexivity]. Qed.

(** [rpve] on three maps on the grid of the segmentation: the three rounds
    in turn, each returning or raising as its trimmed sum does. *)
Lemma rpve_value (p1 p2 p3 seg : loc) (a1 a2 a3 s : ndarray) (h : heap) :
  h !! p1 = Some a1 -> h !! p2 = Some a2 -> h !! p3 = Some a3 ->
  h !! seg = Some s ->
  arr_len a1 = arr_len s -> arr_len a2 = arr_len s -> arr_len a3 = arr_len s ->
  (rpve [p1; p2; p3] seg h).1
  = (t1 ← trimmed_sum (floats a1) (eq_int 1 s);
     t2 ← trimmed_sum (floats a2) (eq_int 2 s);
     t3 ← trimmed_sum (floats a3) (eq_int 3 s);
     Ok (<["wm" := t3]> (<["gm" := t2]> (<["csf" := t1]> ∅)))).
Proof.
  intros H1 H2 H3 Hs L1 L2 L3.
  unfold rpve. cbn [for_each_ST FSL_FAST_LABELS].
  destruct (rpve_tissue_at [p1; p2; p3] seg "csf" 1 ∅ h p1 a1 s)
    as [x1 E1]; try assumption; try reflexivity; try discriminate.
  { rewrite length_floats, length_eq_int. exact L1. }
  destruct (trimmed_sum (floats a1) (eq_int 1 s)) as [t1 | e1].
  2:{ rewrite (ST_bind_Raise _ _ _ _ _ E1). reflexivity. }
  rewrite (ST_bind_Ok _ _ _ _ _ E1).
  destruct (rpve_tissue_at [p1; p2; p3] seg "gm" 2 (<["csf" := t1]> ∅)
              (h ++ [x1])%list p2 a2 s)
    as [x2 E2]; try assumption; try reflexivity; try discriminate;
    try (apply lookup_app_l_Some; assumption).
  { rewrite length_floats, length_eq_int. exact L2. }
  destruct (trimmed_sum (floats a2) (eq_int 2 s)) as [t2 | e2].
  2:{ rewrite (ST_bind_Raise _ _ _ _ _ E2). reflexivity. }
  rewrite (ST_bind_Ok _ _ _ _ _ E2).
  destruct (rpve_tissue_at [p1; p2; p3] seg "wm" 3
              (<["gm" := t2]> (<["csf" := t1]> ∅))
              ((h ++ [x1]) ++ [x2])%list p3 a3 s)
    as [x3 E3]; try assumption; try reflexivity; try discriminate;
    try (do 2 apply lookup_app_l_Some; assumption).
  { rewrite length_floats, length_eq_int. exact L3. }
  destruct (trimmed_sum (floats a3) (eq_int 3 s)) as [t3 | e3].
  2:{ rewrite (ST_bind_Raise _ _ _ _ _ E3). reflexivity. }
  rewrite (ST_bind_Ok _ _ _ _ _ E3).
  reflexivity.
Qed.



(** The store does record writes: the same in-place assignment through a
    reference to an input array changes that array. *)
Example setitem_inplace_writes_through :
  (setitem_inplace 0%nat (fun x => Qltb x 0) 0 [FloatArr [- (1 # 5); 1 # 2]]).2
  = [FloatArr [0; 1 # 2]].
Proof. reflexivity. Qed.

(** * Further properties *)

(** ** Sums and means *)

Lemma Qsum_ge0 (l : list Q) : Forall (fun x => 0 <= x) l -> 0 <= Qsum l.
Proof.
  induction 1 as [| x l Hx _ IH].
  - cbn. lra.
  - change (0 <= x + Qsum l). lra.
Qed.

Lemma Qsum_lt (t : Q) (l : list Q) :
  Forall (fun x => x < t) l -> l <> [] ->
  Qsum l < inject_Z (Z.of_nat (length l)) * t.
Proof.
  induction 1 as [| x l Hx Hl IH]; [congruence |]. intros _.
  change (Qsum (x :: l)) with (x + Qsum l).
  cbn [length]. rewrite inject_Z_succ.
  destruct l as [| y l'].
  - change (x + 0 < (1 + 0) * t). lra.
  - assert (Hne : y :: l' <> []) by discriminate.
    specialize (IH Hne). lra.
Qed.

Lemma length_pos_Q (A : Type) (l : list A) :
  l <> [] -> 0 < inject_Z (Z.of_nat (length l)).
Proof.
  intros Hne. destruct l as [| a l]; [congruence |].
  cbn [length]. rewrite inject_Z_succ.
  assert (0 <= inject_Z (Z.of_nat (length l))).
  { change 0 with (inject_Z 0). rewrite <- Zle_Qle. lia. }
  lra.
Qed.

Lemma mean_value (l : list Q) :
  l <> [] -> mean l = Some (Qsum l / inject_Z (Z.of_nat (length l))).
Proof.
  intros Hne. unfold mean, fl_div.
  destruct (Qeq_bool (inject_Z (Z.of_nat (length l))) 0) eqn:E; [| reflexivity].
  apply Qeq_bool_iff in E. pose proof (length_pos_Q _ l Hne). lra.
Qed.

Lemma mean_empty : mean [] = None.
Proof. reflexivity. Qed.

Lemma sq_abs (x : Q) : Qabs x ^ 2 == x * x.
Proof.
  change (Qabs x ^ 2) with (Qabs x * Qabs x).
  rewrite <- Qabs_Qmult. apply Qabs_pos. nra.
Qed.

Lemma mean_nonneg (l : list Q) (e : Q) :
  Forall (fun x => 0 <= x) l -> mean l = Some e -> 0 <= e.
Proof.
  intros Hl. destruct (decide (l = [])) as [-> | Hne]; [discriminate |].
  rewrite (mean_value l Hne). intros [= <-].
  apply Qle_shift_div_l; [apply length_pos_Q; exact Hne |].
  rewrite Qmult_0_l. apply Qsum_ge0. exact Hl.
Qed.

Lemma mean_energy_nonneg (sel : list Q) (e : Q) :
  mean_energy sel = Some e -> 0 <= e.
Proof.
  apply mean_nonneg. apply Forall_fmap, Forall_true. intros y.
  change (0 <= Qabs y ^ 2). rewrite sq_abs. nra.
Qed.

(** ** [fber] *)

Lemma length_gt0 (a : ndarray) : length (gt0 a) = arr_len a.
Proof. destruct a; cbn; apply length_map. Qed.

Lemma length_lt1 (a : ndarray) : length (lt1 a) = arr_len a.
Proof. destruct a; cbn; apply length_map. Qed.

Lemma fber_unfold (img : list Q) (air : ndarray) :
  length img = arr_len air ->
  fber img air =
  if fl_ltb (mean_energy (pick img (lt1 air))) (1 # 1000)
  then Ok (Some (-1))
  else Ok (fl_div (mean_energy (pick img (gt0 air)))
                  (mean_energy (pick img (lt1 air)))).
Proof.
  intros Hlen. unfold fber.
  rewrite (bool_index_same_length img (gt0 air)) by (rewrite length_gt0; exact Hlen).
  rewrite (bool_index_same_length img (lt1 air)) by (rewrite length_lt1; exact Hlen).
  reflexivity.
Qed.

(** X1: when the background region is not empty and the square of each of
    its intensities is below 1e-3 (a silent background in particular),
    [fber] returns the sentinel -1.0. *)
Theorem fber_quiet_background (img : list Q) (air : ndarray) :
  length img = arr_len air ->
  pick img (lt1 air) <> [] ->
  Forall (fun x => x * x < 1 # 1000) (pick img (lt1 air)) ->
  fber img air = Ok (Some (-1)).
Proof.
  intros Hlen Hne Hq. rewrite (fber_unfold img air Hlen).
  set (bg := pick img (lt1 air)) in *.
  set (sq := map (fun x => Qabs x ^ 2) bg).
  assert (Hsq : sq <> []).
  { subst sq. destruct bg; [congruence | discriminate]. }
  unfold mean_energy. fold sq. rewrite (mean_value sq Hsq). cbn [fl_ltb].
  assert (Hlt : Qsum sq / inject_Z (Z.of_nat (length sq)) < 1 # 1000).
  { apply Qlt_shift_div_r; [apply length_pos_Q; exact Hsq |].
    assert (Hb : Forall (fun y => y < 1 # 1000) sq).
    { subst sq. apply Forall_fmap. eapply Forall_impl; [exact Hq |].
      intros x Hx. change (Qabs x ^ 2 < 1 # 1000). rewrite sq_abs. exact Hx. }
    pose proof (Qsum_lt _ sq Hb Hsq). lra. }
  apply Qltb_lt in Hlt. rewrite Hlt. reflexivity.
Qed.

Lemma fber_quiet_background_witness :
  fber [7; 9; 0; 1 # 100] (IntArr [1; 1; 0; 0]%Z) = Ok (Some (-1)).
Proof.
  apply fber_quiet_background.
  - reflexivity.
  - discriminate.
  - repeat constructor.
Defined.

Lemma fber_float_range (img : list Q) (air : ndarray) (v : Q) :
  fber img air = Ok (Some v) -> v = -1 \/ 0 <= v.
Proof.
  unfold fber.
  destruct (bool_index img (gt0 air)) as [fg | e];
    cbn [mbind result_bind]; [| discriminate].
  destruct (bool_index img (lt1 air)) as [bg | e];
    cbn [mbind result_bind]; [| discriminate].
  destruct (mean_energy bg) as [b |] eqn:Eb; cbn [fl_ltb].
  - destruct (Qltb b (1 # 1000)) eqn:El.
    + intros [= <-]. left. reflexivity.
    + apply Qltb_ge in El.
      destruct (mean_energy fg) as [a |] eqn:Ea; cbn [fl_div]; [| discriminate].
      destruct (Qeq_bool b 0); [discriminate |]. intros [= <-]. right.
      apply mean_energy_nonneg in Ea.
      apply Qle_shift_div_l; lra.
  - destruct (mean_energy fg); discriminate.
Qed.

Lemma wrap_unsigned_nonneg (bits : positive) (z : Z) :
  (0 <= wrap false bits z)%Z.
Proof.
  unfold wrap. cbn [andb]. apply Z.mod_pos_bound. lia.
Qed.

Lemma mean_energy_unsigned_nonneg (bits : positive) (sel : list Z) (e : Q) :
  mean_energy_int false bits sel = Some e -> 0 <= e.
Proof.
  apply mean_nonneg. apply Forall_fmap, Forall_true. intros y.
  change (0 <= inject_Z (wrap false bits (wrap false bits (Z.abs y) ^ 2))).
  change 0 with (inject_Z 0). rewrite <- Zle_Qle. apply wrap_unsigned_nonneg.
Qed.

(** X2: on a floating-point volume, and on a volume of unsigned integers,
    [fber] never returns a negative number apart from the sentinel -1.0.
    On a volume of signed integers it can: the square is taken in the
    integer type, so the energy of a 16-bit intensity of 200 wraps around
    to -25536. *)
Theorem fber_range :
  (forall (img : list Q) (air : ndarray) (v : Q),
     fber img air = Ok (Some v) -> v = -1 \/ 0 <= v) /\
  (forall (bits : positive) (img : list Z) (air : ndarray) (v : Q),
     fber_int false bits img air = Ok (Some v) -> v = -1 \/ 0 <= v) /\
  (exists v,
     fber_int true 16 [200; 1]%Z (IntArr [1; 0]%Z) = Ok (Some v) /\
     v == - (25536)).
Proof.
  split; [exact fber_float_range | split].
  - intros bits img air v. unfold fber_int.
    destruct (negb (length img =? length (gt0 air))%nat); [discriminate |].
    destruct (negb (length img =? length (lt1 air))%nat); [discriminate |].
    destruct (mean_energy_int false bits (pick_int img (lt1 air)))
      as [b |] eqn:Eb; cbn [fl_ltb].
    + destruct (Qltb b (1 # 1000)) eqn:El.
      * intros [= <-]. left. reflexivity.
      * apply Qltb_ge in El.
        destruct (mean_energy_int false bits (pick_int img (gt0 air)))
          as [a |] eqn:Ea; cbn [fl_div]; [| discriminate].
        destruct (Qeq_bool b 0); [discriminate |]. intros [= <-]. right.
        apply mean_energy_unsigned_nonneg in Ea.
        apply Qle_shift_div_l; lra.
    + destruct (mean_energy_int false bits (pick_int img (gt0 air)));
        discriminate.
  - eexists. split; [vm_compute; reflexivity | reflexivity].
Qed.

Lemma fber_range_witness :
  exists v, fber [1 # 2; 1 # 10] (IntArr [1; 0]%Z) = Ok (Some v) /\
            (v = -1 \/ 0 <= v).
Proof.
  eexists. split; [vm_compute; reflexivity |].
  apply (proj1 fber_range [1 # 2; 1 # 10] (IntArr [1; 0]%Z)).
  vm_compute. reflexivity.
Defined.

(** X3: on the grid of the volume every voxel falls in the foreground
    ([air > 0]) or in the background ([air < 1]); with an integer mask it
    falls in exactly one of them. *)
Theorem fber_regions_cover (img : list Q) (air : ndarray) :
  length img = arr_len air ->
  (length img <= length (pick img (gt0 air)) + length (pick img (lt1 air)))%nat /\
  (forall l, air = IntArr l ->
     (length (pick img (gt0 air)) + length (pick img (lt1 air)))%nat = length img).
Proof.
  intros Hlen. split.
  - destruct air as [l | l]; cbn in Hlen |- *; revert img Hlen;
      induction l as [| z l IH]; intros [| x img] Hlen;
      try discriminate Hlen; cbn [map pick length]; try lia;
      injection Hlen as Hlen; specialize (IH img Hlen).
    + destruct (0 <? z)%Z eqn:E1, (z <? 1)%Z eqn:E2; cbn [length]; lia.
    + destruct (Qltb 0 z) eqn:E1, (Qltb z 1) eqn:E2; cbn [length]; try lia.
      apply Qltb_ge in E1, E2. lra.
  - intros l ->. cbn in Hlen |- *. revert img Hlen.
    induction l as [| z l IH]; intros [| x img] Hlen;
      try discriminate Hlen; [reflexivity |].
    injection Hlen as Hlen. specialize (IH img Hlen). cbn [map pick].
    destruct (0 <? z)%Z eqn:E1, (z <? 1)%Z eqn:E2; cbn [length]; lia.
Qed.

Lemma fber_regions_cover_witness :
  let img := [5; 6; 7] in
  let air := FloatArr [0; 1 # 2; 1] in
  (length img <= length (pick img (gt0 air)) + length (pick img (lt1 air)))%nat.
Proof.
  intros img air.
  apply (proj1 (fber_regions_cover [5; 6; 7] (FloatArr [0; 1 # 2; 1]) eq_refl)).
Defined.

Lemma pick_none (img : list Q) (m : list bool) :
  Forall (fun b => b = false) m -> pick img m = [].
Proof.
  intros Hm. revert img. induction Hm as [| b m -> _ IH]; intros [| x img];
    try reflexivity.
  cbn. apply IH.
Qed.

(** X4: when the mask leaves no background voxel (every entry of an integer
    mask is 1 or more), [fber] returns nan, not the sentinel. *)
Theorem fber_no_background (img : list Q) (l : list Z) :
  length img = length l ->
  Forall (fun z => (1 <= z)%Z) l ->
  fber img (IntArr l) = Ok None.
Proof.
  intros Hlen Hl. rewrite (fber_unfold img (IntArr l) Hlen).
  rewrite (pick_none img (lt1 (IntArr l))).
  - change (mean_energy []) with (@None Q). cbn [fl_ltb].
    destruct (mean_energy (pick img (gt0 (IntArr l)))); reflexivity.
  - cbn. apply Forall_fmap. eapply Forall_impl; [exact Hl |].
    intros z Hz. cbn. apply Z.ltb_ge. exact Hz.
Qed.

Lemma fber_no_background_witness :
  fber [3; 4] (IntArr [1; 1]%Z) = Ok None.
Proof.
  apply fber_no_background; [reflexivity |].
  repeat constructor; discriminate.
Defined.

(** ** [art_qi1] *)

Lemma arr_sum_binary_nonneg (m : ndarray) : binary_mask m -> 0 <= arr_sum m.
Proof.
  destruct m as [l | l]; cbn [binary_mask arr_sum]; intros Hb.
  - change 0 with (inject_Z 0). rewrite <- Zle_Qle.
    induction Hb as [| z l Hz _ IH]; cbn [fold_right]; [lia |].
    destruct Hz as [-> | ->]; lia.
  - apply Qsum_ge0. eapply Forall_impl; [exact Hb |].
    intros q [-> | ->]; lra.
Qed.

(** X5: for two binary masks that are not both empty, [art_qi1] is a
    proportion: a number between 0 and 1. *)
Theorem art_qi1_range (airmask artmask : ndarray) :
  binary_mask airmask -> binary_mask artmask ->
  0 < arr_sum airmask + arr_sum artmask ->
  exists q, art_qi1 airmask artmask = Some q /\ 0 <= q <= 1.
Proof.
  intros Ha Hr Hpos.
  apply arr_sum_binary_nonneg in Ha, Hr.
  unfold art_qi1, fl_div.
  destruct (Qeq_bool (arr_sum airmask + arr_sum artmask) 0) eqn:E.
  { apply Qeq_bool_iff in E. lra. }
  eexists. split; [reflexivity |].
  apply fraction_bounds; lra.
Qed.

Lemma art_qi1_range_witness :
  exists q, art_qi1 (IntArr [1; 1; 0; 0]%Z) (IntArr [0; 0; 1; 0]%Z) = Some q /\
            0 <= q <= 1.
Proof.
  apply art_qi1_range.
  - cbn. repeat first [apply List.Forall_nil
                      | apply List.Forall_cons;
                        [first [left; reflexivity | right; reflexivity] |]].
  - cbn. repeat first [apply List.Forall_nil
                      | apply List.Forall_cons;
                        [first [left; reflexivity | right; reflexivity] |]].
  - reflexivity.
Defined.

(** X6: exchanging the two masks gives the complementary proportion; when
    both masks sum to zero the result is nan. *)
Theorem art_qi1_complement (airmask artmask : ndarray) :
  (~ arr_sum airmask + arr_sum artmask == 0 ->
   exists a b,
     art_qi1 airmask artmask = Some a /\
     art_qi1 artmask airmask = Some b /\
     a + b == 1) /\
  (arr_sum airmask + arr_sum artmask == 0 -> art_qi1 airmask artmask = None).
Proof.
  unfold art_qi1, fl_div. split.
  - intros Hnz.
    destruct (Qeq_bool (arr_sum airmask + arr_sum artmask) 0) eqn:E1.
    { apply Qeq_bool_iff in E1. contradiction. }
    destruct (Qeq_bool (arr_sum artmask + arr_sum airmask) 0) eqn:E2.
    { apply Qeq_bool_iff in E2. exfalso. apply Hnz. lra. }
    eexists. eexists. split; [reflexivity |]. split; [reflexivity |].
    field. repeat split; intros H; apply Hnz; lra.
  - intros Hz. apply Qeq_bool_iff in Hz. rewrite Hz. reflexivity.
Qed.

Lemma art_qi1_complement_witness :
  (exists a b,
     art_qi1 (IntArr [1; 1; 0; 0]%Z) (IntArr [0; 0; 1; 0]%Z) = Some a /\
     art_qi1 (IntArr [0; 0; 1; 0]%Z) (IntArr [1; 1; 0; 0]%Z) = Some b /\
     a + b == 1) /\
  art_qi1 (IntArr [0; 0]%Z) (IntArr [0; 0]%Z) = None.
Proof.
  split.
  - apply (proj1 (art_qi1_complement (IntArr [1; 1; 0; 0]%Z)
                    (IntArr [0; 0; 1; 0]%Z))).
    intros H. discriminate H.
  - apply (proj2 (art_qi1_complement (IntArr [0; 0]%Z) (IntArr [0; 0]%Z))).
    reflexivity.
Defined.

(** ** More on [_prepare_mask] *)

Lemma map_fixpoint {A : Type} (f : A -> A) (P : A -> Prop) (l : list A) :
  (forall x, P x -> f x = x) -> Forall P l -> map f l = l.
Proof.
  intros Hf. induction 1 as [| x l Hx _ IH]; cbn; [reflexivity |].
  rewrite (Hf x Hx), IH. reflexivity.
Qed.

Lemma binarize_binary_id (m : ndarray) (l : label) :
  resolve_label l = Ok 1%Z -> binary_mask m -> binarize m l = Ok m.
Proof.
  intros Hl Hb. destruct m as [a | a]; cbn [binarize binary_mask] in *.
  - rewrite Hl. cbn [mbind result_bind]. unfold setitem_where.
    rewrite map_map. do 2 f_equal.
    apply (map_fixpoint _ (fun z => z = 0%Z \/ z = 1%Z)); [| exact Hb].
    intros z [-> | ->]; reflexivity.
  - unfold setitem_where. rewrite map_map. do 2 f_equal.
    apply (map_fixpoint _ (fun q => q = 0 \/ q = 1)); [| exact Hb].
    intros q [-> | ->]; reflexivity.
Qed.

Lemma prepare_mask_returns (opening : list bool -> list bool) (mask : ndarray)
    (l : label) (lid : Z) (erode : bool) :
  resolve_label l = Ok lid ->
  exists m, _prepare_mask opening mask l erode = Ok m.
Proof.
  intros Hl. unfold _prepare_mask. destruct mask as [a | a]; cbn [binarize].
  - rewrite Hl. cbn [mbind result_bind]. destruct erode; eexists; reflexivity.
  - cbn [mbind result_bind]. destruct erode; eexists; reflexivity.
Qed.

(** X7: with the foreground label 1 and without opening, preparing a mask
    is idempotent: the prepared mask is returned unchanged by a second
    preparation. *)
Theorem prepare_mask_idempotent (opening : list bool -> list bool)
    (mask : ndarray) (l : label) :
  resolve_label l = Ok 1%Z ->
  exists m,
    _prepare_mask opening mask l false = Ok m /\
    _prepare_mask opening m l false = Ok m.
Proof.
  intros Hl.
  destruct (prepare_mask_returns opening mask l 1 false Hl) as [m Hm].
  exists m. split; [exact Hm |].
  pose proof (prepare_mask_binary _ _ _ _ _ Hm) as Hb.
  unfold _prepare_mask. rewrite (binarize_binary_id m l Hl Hb). reflexivity.
Qed.

Lemma prepare_mask_idempotent_witness :
  exists m,
    _prepare_mask (opening3 (1, 1, 4)%Z) (FloatArr [1 # 2; 97 # 100; 2; 0])
      (NamedLabel "csf") false = Ok m /\
    _prepare_mask (opening3 (1, 1, 4)%Z) m (NamedLabel "csf") false = Ok m.
Proof.
  apply prepare_mask_idempotent. reflexivity.
Defined.

(** X8: on a segmentation (integer mask), without opening, a voxel
    becomes 1 when it carries the label and 0 otherwise, except for the
    label 0 (the background, [bg]): every voxel then becomes 1. *)
Theorem prepare_mask_labels (opening : list bool -> list bool) (a : list Z)
    (l : label) (lid : Z) :
  resolve_label l = Ok lid ->
  _prepare_mask opening (IntArr a) l false
  = Ok (IntArr (map (fun v => if (lid =? 0)%Z || (v =? lid)%Z then 1%Z else 0%Z) a)).
Proof.
  intros Hl. unfold _prepare_mask. cbn [binarize]. rewrite Hl.
  cbn [mbind result_bind]. unfold setitem_where. rewrite map_map.
  do 2 f_equal. apply map_ext. intros v.
  destruct (v =? lid)%Z eqn:E; cbn [negb].
  - rewrite E, orb_true_r. reflexivity.
  - rewrite orb_false_r. rewrite (Z.eqb_sym 0 lid). reflexivity.
Qed.

Lemma prepare_mask_labels_witness :
  _prepare_mask (opening3 (1, 1, 4)%Z) (IntArr [0; 1; 2; 3]%Z)
    (NamedLabel "bg") false
  = Ok (IntArr [1; 1; 1; 1]%Z) /\
  _prepare_mask (opening3 (1, 1, 4)%Z) (IntArr [0; 1; 2; 3]%Z)
    (NamedLabel "gm") false
  = Ok (IntArr [0; 0; 1; 0]%Z).
Proof.
  split.
  - apply (prepare_mask_labels (opening3 (1, 1, 4)%Z) [0; 1; 2; 3]%Z
             (NamedLabel "bg") 0%Z eq_refl).
  - apply (prepare_mask_labels (opening3 (1, 1, 4)%Z) [0; 1; 2; 3]%Z
             (NamedLabel "gm") 2%Z eq_refl).
Defined.

(** X9: [_prepare_mask] raises only for a segmentation with a label name
    that is not in the table, and the exception is then [KeyError]; on a
    mask of probabilities the label is never looked up. *)
Theorem prepare_mask_raises (opening : list bool -> list bool) (mask : ndarray)
    (l : label) (erode : bool) (e : exn) :
  _prepare_mask opening mask l erode = Raise e <->
  e = KeyError /\
  exists a s, mask = IntArr a /\ l = NamedLabel s /\
              assoc s FSL_FAST_LABELS = None.
Proof.
  unfold _prepare_mask. destruct mask as [a | a]; cbn [binarize].
  - destruct l as [s | z]; cbn [resolve_label].
    + unfold getitem. destruct (assoc s FSL_FAST_LABELS) as [lid |] eqn:Es;
        cbn [mbind result_bind].
      * split.
        -- destruct erode; discriminate.
        -- intros [_ (a' & s' & _ & [= <-] & H)]. congruence.
      * split.
        -- intros [= <-]. split; [reflexivity |]. exists a, s. auto.
        -- intros [-> _]. reflexivity.
    + cbn [mbind result_bind]. split.
      * destruct erode; discriminate.
      * intros [_ (a' & s' & _ & [=] & _)].
  - cbn [mbind result_bind]. split.
    + destruct erode; discriminate.
    + intros [_ (a' & s' & [=] & _)].
Qed.

Lemma prepare_mask_raises_witness :
  _prepare_mask (opening3 (1, 1, 2)%Z) (IntArr [0; 1]%Z) (NamedLabel "brain") true
  = Raise KeyError /\
  exists m,
    _prepare_mask (opening3 (1, 1, 2)%Z) (FloatArr [0; 1]) (NamedLabel "brain")
      false = Ok m.
Proof.
  split.
  - apply (proj2 (prepare_mask_raises (opening3 (1, 1, 2)%Z) (IntArr [0; 1]%Z)
                    (NamedLabel "brain") true KeyError)).
    split; [reflexivity |]. exists [0; 1]%Z, "brain". auto.
  - eexists. reflexivity.
Defined.

(** ** More on [snr] and [snr_dietrich] *)

(** X10: when the prepared foreground selects fewer than two voxels, [snr]
    returns nan (the median of nothing, or a zero sum over the normalizer
    0), whatever the square root. *)
Theorem snr_small_foreground (sqrtQ : Q -> Q) (opening : list bool -> list bool)
    (img : list Q) (smask : ndarray) (erode : bool) (fglabel : label)
    (l : Z) (fgmask : ndarray) :
  resolve_label fglabel = Ok l ->
  _prepare_mask opening smask (RawLabel l) erode = Ok fgmask ->
  length img = length (gt0 fgmask) ->
  (length (pick img (gt0 fgmask)) < 2)%nat ->
  snr sqrtQ opening img smask erode fglabel = Ok None.
Proof.
  intros Hl Hm Hlen Hfew.
  rewrite (snr_value sqrtQ opening img smask erode fglabel l fgmask Hl Hm Hlen).
  pose proof (snr_normalizer opening img smask erode l fgmask Hm Hlen) as Hn.
  cbv zeta. destruct (pick img (gt0 fgmask)) as [| x [| y sel]] eqn:Es.
  - reflexivity.
  - change (median [x]) with (Some x). cbn [sum_sq_dev fl_div].
    assert (Hz : Qeq_bool (arr_sum fgmask - 1) 0 = true).
    { apply Qeq_bool_iff. rewrite Hn. reflexivity. }
    rewrite Hz. reflexivity.
  - cbn in Hfew. lia.
Qed.

Lemma snr_small_foreground_witness :
  snr sqrt_fix (opening3 (1, 1, 3)%Z) [5; 6; 7] (IntArr [0; 2; 0]%Z) false
      (NamedLabel "gm") = Ok None.
Proof.
  apply (snr_small_foreground sqrt_fix (opening3 (1, 1, 3)%Z) [5; 6; 7]
           (IntArr [0; 2; 0]%Z) false (NamedLabel "gm") 2%Z
           (IntArr [0; 1; 0]%Z)); try reflexivity.
  cbn. lia.
Defined.

Lemma mad_uniform (c v : Q) (l : list Q) :
  0 < c -> l <> [] -> Forall (fun x => x == v) l ->
  exists d, mad c l = Some d /\ d == 0.
Proof.
  intros Hc Hne Hv. unfold mad.
  destruct (median l) as [m |] eqn:Em.
  2:{ apply median_None in Em. contradiction. }
  assert (Hm : v <= m <= v).
  { apply (median_between v v l m); [| exact Em].
    eapply Forall_impl; [exact Hv |]. intros x Hx. cbn in Hx. lra. }
  destruct (Qeq_bool c 0) eqn:Ec.
  { apply Qeq_bool_iff in Ec. lra. }
  set (dev := map (fun x => Qabs (x - m) / c) l).
  destruct (median dev) as [d |] eqn:Ed.
  2:{ apply median_None in Ed. subst dev. destruct l; [congruence | discriminate]. }
  exists d. split; [reflexivity |].
  assert (Hd : 0 <= d <= 0).
  { apply (median_between 0 0 dev d); [| exact Ed].
    subst dev. apply Forall_fmap. eapply Forall_impl; [exact Hv |].
    intros x Hx. cbn in Hx.
    change (0 <= Qabs (x - m) / c <= 0).
    assert (Hz : Qabs (x - m) / c == 0).
    { assert (E : x - m == 0) by lra. rewrite E. reflexivity. }
    rewrite Hz. lra. }
  lra.
Qed.

Lemma snr_dietrich_unfold (sqrtQ : Q -> Q) (opening : list bool -> list bool)
    (mad_c : Q) (img : list Q) (smask airmask : ndarray) (erode : bool)
    (fglabel : label) (l : Z) (fgmask bgmask : ndarray) :
  resolve_label fglabel = Ok l ->
  _prepare_mask opening smask (RawLabel l) erode = Ok fgmask ->
  _prepare_mask opening airmask (RawLabel 1) erode = Ok bgmask ->
  length img = length (gt0 fgmask) ->
  length img = length (gt0 bgmask) ->
  snr_dietrich sqrtQ opening mad_c img smask airmask erode fglabel =
  let scale :=
    fl_mul (mad mad_c (pick img (gt0 bgmask)))
           (fl_sqrt sqrtQ (Some (2 / (4 - pi)))) in
  if fl_ltb scale (1 # 1000) then Ok (Some (-1))
  else Ok (fl_div (median (pick img (gt0 fgmask))) scale).
Proof.
  intros Hl Hfg Hbg Hlf Hlb. unfold snr_dietrich.
  rewrite Hl. cbn -[pi]. rewrite Hfg. cbn -[pi]. rewrite Hbg. cbn -[pi].
  rewrite (bool_index_same_length _ _ Hlf). cbn -[pi].
  rewrite (bool_index_same_length _ _ Hlb). cbn -[pi].
  reflexivity.
Qed.

(** X11: when the air region is not empty and all its intensities are
    equal (a noise-free background), [snr_dietrich] returns the sentinel
    -1.0, for every positive consistency constant and every square root. *)
Theorem snr_dietrich_uniform_air (sqrtQ : Q -> Q)
    (opening : list bool -> list bool) (mad_c : Q) (img : list Q)
    (smask airmask : ndarray) (erode : bool) (fglabel : label) (l : Z)
    (fgmask bgmask : ndarray) (v : Q) :
  0 < mad_c ->
  resolve_label fglabel = Ok l ->
  _prepare_mask opening smask (RawLabel l) erode = Ok fgmask ->
  _prepare_mask opening airmask (RawLabel 1) erode = Ok bgmask ->
  length img = length (gt0 fgmask) ->
  length img = length (gt0 bgmask) ->
  pick img (gt0 bgmask) <> [] ->
  Forall (fun x => x == v) (pick img (gt0 bgmask)) ->
  snr_dietrich sqrtQ opening mad_c img smask airmask erode fglabel
  = Ok (Some (-1)).
Proof.
  intros Hc Hl Hfg Hbg Hlf Hlb Hne Hv.
  rewrite (snr_dietrich_unfold sqrtQ opening mad_c img smask airmask erode
             fglabel l fgmask bgmask Hl Hfg Hbg Hlf Hlb).
  destruct (mad_uniform mad_c v _ Hc Hne Hv) as (d & -> & Hd).
  cbv zeta.
  change (fl_sqrt sqrtQ (Some (2 / (4 - pi))))
    with (Some (sqrtQ (2 / (4 - pi)))).
  cbn [fl_mul fl_ltb].
  assert (Hlt : d * sqrtQ (2 / (4 - pi)) < 1 # 1000).
  { rewrite Hd. lra. }
  apply Qltb_lt in Hlt. rewrite Hlt. reflexivity.
Qed.

Lemma snr_dietrich_uniform_air_witness :
  snr_dietrich sqrt_fix (opening3 (1, 2, 3)%Z) Gaussian_ppf_075
    [100; 120; 140; 3; 3; 3] (IntArr [1; 1; 1; 0; 0; 0]%Z)
    (IntArr [0; 0; 0; 1; 1; 1]%Z) false (RawLabel 1)
  = Ok (Some (-1)).
Proof.
  apply (snr_dietrich_uniform_air sqrt_fix (opening3 (1, 2, 3)%Z)
           Gaussian_ppf_075 [100; 120; 140; 3; 3; 3]
           (IntArr [1; 1; 1; 0; 0; 0]%Z) (IntArr [0; 0; 0; 1; 1; 1]%Z)
           false (RawLabel 1) 1%Z
           (IntArr [1; 1; 1; 0; 0; 0]%Z) (IntArr [0; 0; 0; 1; 1; 1]%Z) 3);
    try reflexivity.
  - discriminate.
  - repeat constructor.
Defined.

(** ** More on [cnr] and [cjv] *)

Lemma fl_abs_div_nonneg (a : fl) (n r : Q) :
  0 <= n -> fl_div (fl_abs a) (Some n) = Some r -> 0 <= r.
Proof.
  intros Hn. destruct a as [x |]; cbn; [| discriminate].
  destruct (Qeq_bool n 0) eqn:E; [discriminate |]. intros [= <-].
  assert (n <> 0 /\ ~ n == 0) as [_ Hnz].
  { split; intros H; [subst n; discriminate E |].
    apply Qeq_bool_iff in H. congruence. }
  pose proof (Qabs_nonneg x). apply Qle_shift_div_l; lra.
Qed.

Lemma fl_add_nonneg (a b : fl) (s : Q) :
  (forall x, a = Some x -> 0 <= x) ->
  (forall y, b = Some y -> 0 <= y) ->
  fl_add a b = Some s -> 0 <= s.
Proof.
  intros Ha Hb. destruct a as [x |], b as [y |]; cbn; try discriminate.
  intros [= <-]. specialize (Ha x eq_refl). specialize (Hb y eq_refl). lra.
Qed.

(** X12: for a positive consistency constant, a finite value returned by
    [cnr] is never negative, on either noise estimate. *)
Theorem cnr_nonneg (c : Q) (img : list Q) (seg : ndarray)
    (lbl : option (list (string * Z))) (r : Q) :
  0 < c ->
  cnr c img seg lbl = Ok (Some r) ->
  0 <= r.
Proof.
  intros Hc. unfold cnr. cbv zeta.
  set (d := match lbl with Some d => d | None => FSL_FAST_LABELS end).
  destruct (getitem d "bg") as [bg | e]; cbn [mbind result_bind]; [| discriminate].
  destruct (bool_index img (eq_int bg seg)) as [bgsel | e];
    cbn [mbind result_bind]; [| discriminate].
  destruct (getitem d "gm") as [gm | e]; cbn [mbind result_bind].
  2:{ destruct (fl_ltb (mad c bgsel) 1); discriminate. }
  destruct (bool_index img (eq_int gm seg)) as [gmsel | e];
    cbn [mbind result_bind].
  2:{ destruct (fl_ltb (mad c bgsel) 1); discriminate. }
  destruct (getitem d "wm") as [wm | e]; cbn [mbind result_bind].
  2:{ destruct (fl_ltb (mad c bgsel) 1); discriminate. }
  destruct (bool_index img (eq_int wm seg)) as [wmsel | e];
    cbn [mbind result_bind].
  2:{ destruct (fl_ltb (mad c bgsel) 1); discriminate. }
  destruct (fl_ltb (mad c bgsel) 1) eqn:Elow.
  - destruct (getitem d "csf") as [csf | e]; cbn [mbind result_bind];
      [| discriminate].
    destruct (bool_index img (eq_int csf seg)) as [csfsel | e];
      cbn [mbind result_bind]; [| discriminate].
    unfold np_average_0d.
    destruct (fl_add (fl_add (mad c gmsel) (mad c wmsel)) (mad c csfsel))
      as [n |] eqn:En.
    2:{ destruct (fl_abs (fl_sub (median gmsel) (median wmsel))); discriminate. }
    intros [= H]. revert H. apply fl_abs_div_nonneg.
    revert En. apply fl_add_nonneg.
    + intros x. apply fl_add_nonneg; intros y; apply mad_nonneg; exact Hc.
    + intros y. apply mad_nonneg. exact Hc.
  - cbn [mbind result_bind].
    destruct (mad c bgsel) as [n |] eqn:En.
    2:{ destruct (fl_abs (fl_sub (median gmsel) (median wmsel))); discriminate. }
    intros [= H]. revert H. apply fl_abs_div_nonneg.
    exact (mad_nonneg c bgsel n Hc En).
Qed.

Lemma cnr_nonneg_witness :
  exists r,
    cnr Gaussian_ppf_075 [0; 0; 0; 10; 12; 14; 28; 24; 20; 1; 2; 3]
      (IntArr [0; 0; 0; 2; 2; 2; 3; 3; 3; 1; 1; 1]%Z) None = Ok (Some r) /\
    0 <= r.
Proof.
  eexists. split; [vm_compute; reflexivity |].
  apply (cnr_nonneg Gaussian_ppf_075 [0; 0; 0; 10; 12; 14; 28; 24; 20; 1; 2; 3]
           (IntArr [0; 0; 0; 2; 2; 2; 3; 3; 3; 1; 1; 1]%Z) None).
  - reflexivity.
  - vm_compute. reflexivity.
Defined.

(** X13: with a label table that has no [csf] entry, [cnr] raises
    [KeyError] when the background MAD is below 1.0 and returns the ratio
    over the background MAD otherwise: the failure depends on the data. *)
Theorem cnr_without_csf (c : Q) (img : list Q) (seg : ndarray)
    (d : list (string * Z)) (bg gm wm : Z) :
  assoc "bg" d = Some bg -> assoc "gm" d = Some gm -> assoc "wm" d = Some wm ->
  assoc "csf" d = None ->
  length img = arr_len seg ->
  let noise := mad c (pick img (eq_int bg seg)) in
  (fl_ltb noise 1 = true -> cnr c img seg (Some d) = Raise KeyError) /\
  (fl_ltb noise 1 = false ->
   cnr c img seg (Some d)
   = Ok (fl_div (fl_abs (fl_sub (median (pick img (eq_int gm seg)))
                                (median (pick img (eq_int wm seg)))))
                noise)).
Proof.
  intros Hbg Hgm Hwm Hcsf Hlen noise. unfold cnr, getitem. cbv zeta.
  rewrite Hbg, Hgm, Hwm, Hcsf. cbn [mbind result_bind].
  rewrite !bool_index_same_length by (rewrite length_eq_int; exact Hlen).
  cbn [mbind result_bind]. fold noise.
  split; intros ->; reflexivity.
Qed.

Lemma cnr_without_csf_witness :
  let d := [("bg", 0%Z); ("gm", 2%Z); ("wm", 3%Z)] in
  let seg := IntArr [0; 0; 0; 2; 2; 3; 3]%Z in
  cnr Gaussian_ppf_075 [0; 0; 0; 10; 12; 20; 24] seg (Some d) = Raise KeyError /\
  cnr Gaussian_ppf_075 [0; 5; 90; 10; 12; 20; 24] seg (Some d)
  = Ok (fl_div (fl_abs (fl_sub (median [10; 12]) (median [20; 24])))
               (mad Gaussian_ppf_075 [0; 5; 90])).
Proof.
  intros d seg. split.
  - apply (proj1 (cnr_without_csf Gaussian_ppf_075 [0; 0; 0; 10; 12; 20; 24]
                    seg d 0%Z 2%Z 3%Z eq_refl eq_refl eq_refl eq_refl eq_refl)).
    reflexivity.
  - apply (proj2 (cnr_without_csf Gaussian_ppf_075 [0; 5; 90; 10; 12; 20; 24]
                    seg d 0%Z 2%Z 3%Z eq_refl eq_refl eq_refl eq_refl eq_refl)).
    reflexivity.
Defined.

Lemma cjv_with_segmentation (mad_c : Q) (img : list Q) (s : ndarray)
    (wmmask gmmask : option ndarray) (wmlabel gmlabel : label) (lw lg : Z) :
  resolve_label wmlabel = Ok lw ->
  resolve_label gmlabel = Ok lg ->
  length img = arr_len s ->
  cjv mad_c img (Some s) wmmask gmmask wmlabel gmlabel
  = Ok (fl_div (fl_add (mad mad_c (pick img (eq_int lw s)))
                       (mad mad_c (pick img (eq_int lg s))))
               (fl_sub (median (pick img (eq_int lw s)))
                       (median (pick img (eq_int lg s))))).
Proof.
  intros Hw Hg Hlen. unfold cjv. cbn [is_None andb].
  rewrite Hw. cbn [mbind result_bind]. rewrite Hg. cbn [mbind result_bind].
  rewrite !gt_half_label_mask.
  rewrite !bool_index_same_length by (rewrite length_eq_int; exact Hlen).
  reflexivity.
Qed.

(** X14: when the WM and GM labels resolve to the same tissue, the
    denominator is a difference of equal medians and [cjv] returns a
    non-finite value instead of failing. *)
Theorem cjv_same_label (mad_c : Q) (img : list Q) (s : ndarray)
    (wmmask gmmask : option ndarray) (wmlabel gmlabel : label) (l : Z) :
  resolve_label wmlabel = Ok l ->
  resolve_label gmlabel = Ok l ->
  length img = arr_len s ->
  cjv mad_c img (Some s) wmmask gmmask wmlabel gmlabel = Ok None.
Proof.
  intros Hw Hg Hlen.
  rewrite (cjv_with_segmentation mad_c img s wmmask gmmask wmlabel gmlabel l l
             Hw Hg Hlen).
  destruct (median (pick img (eq_int l s))) as [m |]; cbn [fl_sub].
  - destruct (fl_add _ _) as [a |]; cbn [fl_div]; [| reflexivity].
    assert (E : Qeq_bool (m - m) 0 = true) by (apply Qeq_bool_iff; ring).
    rewrite E. reflexivity.
  - destruct (fl_add _ _); reflexivity.
Qed.

Lemma cjv_same_label_witness :
  cjv Gaussian_ppf_075 [10; 12; 14; 20] (Some (IntArr [3; 3; 3; 2]%Z)) None None
      (NamedLabel "wm") (RawLabel 3) = Ok None.
Proof.
  apply (cjv_same_label Gaussian_ppf_075 [10; 12; 14; 20] (IntArr [3; 3; 3; 2]%Z)
           None None (NamedLabel "wm") (RawLabel 3) 3%Z);
    reflexivity.
Defined.

(** X15: exchanging the WM and GM labels negates a finite [cjv]. *)
Theorem cjv_swap_labels (mad_c : Q) (img : list Q) (s : ndarray)
    (wmlabel gmlabel : label) (lw lg : Z) (r : Q) :
  resolve_label wmlabel = Ok lw ->
  resolve_label gmlabel = Ok lg ->
  length img = arr_len s ->
  cjv mad_c img (Some s) None None wmlabel gmlabel = Ok (Some r) ->
  exists r',
    cjv mad_c img (Some s) None None gmlabel wmlabel = Ok (Some r') /\
    r' == - r.
Proof.
  intros Hw Hg Hlen.
  rewrite (cjv_with_segmentation mad_c img s None None wmlabel gmlabel lw lg
             Hw Hg Hlen).
  rewrite (cjv_with_segmentation mad_c img s None None gmlabel wmlabel lg lw
             Hg Hw Hlen).
  destruct (mad mad_c (pick img (eq_int lw s))) as [a |];
    destruct (mad mad_c (pick img (eq_int lg s))) as [b |];
    destruct (median (pick img (eq_int lw s))) as [m1 |];
    destruct (median (pick img (eq_int lg s))) as [m2 |];
    cbn [fl_add fl_sub fl_div]; try discriminate.
  destruct (Qeq_bool (m1 - m2) 0) eqn:E1; [discriminate |].
  intros [= <-].
  assert (Hnz : ~ m1 - m2 == 0).
  { intros H. apply Qeq_bool_iff in H. congruence. }
  destruct (Qeq_bool (m2 - m1) 0) eqn:E2.
  { apply Qeq_bool_iff in E2. exfalso. apply Hnz. lra. }
  eexists. split; [reflexivity |].
  field. split; intros H; apply Hnz; lra.
Qed.

Lemma cjv_swap_labels_witness :
  exists r r',
    cjv Gaussian_ppf_075 [10; 12; 14; 20; 24; 28]
      (Some (IntArr [2; 2; 2; 3; 3; 3]%Z)) None None
      (NamedLabel "wm") (NamedLabel "gm") = Ok (Some r) /\
    cjv Gaussian_ppf_075 [10; 12; 14; 20; 24; 28]
      (Some (IntArr [2; 2; 2; 3; 3; 3]%Z)) None None
      (NamedLabel "gm") (NamedLabel "wm") = Ok (Some r') /\
    r' == - r.
Proof.
  eexists.
  assert (H : cjv Gaussian_ppf_075 [10; 12; 14; 20; 24; 28]
                (Some (IntArr [2; 2; 2; 3; 3; 3]%Z)) None None
                (NamedLabel "wm") (NamedLabel "gm") = Ok (Some _))
    by (vm_compute; reflexivity).
  destruct (cjv_swap_labels Gaussian_ppf_075 [10; 12; 14; 20; 24; 28]
              (IntArr [2; 2; 2; 3; 3; 3]%Z) (NamedLabel "wm") (NamedLabel "gm")
              3%Z 2%Z _ eq_refl eq_refl eq_refl H) as (r' & Hr & Hneg).
  exists r'. split; [exact H |]. split; [exact Hr | exact Hneg].
Defined.

(** ** More on [art_qi2] *)

Lemma clip_range (g0 : fl) (g : Q) :
  (let g1 := if fl_gtb g0 1 then Some 1 else g0 in
   if fl_ltb g1 0 then Some 0 else g1) = Some g ->
  0 <= g <= 1.
Proof.
  cbv zeta. destruct g0 as [x |]; cbn [fl_gtb].
  - destruct (Qltb 1 x) eqn:E1; cbn [fl_ltb].
    + change (Qltb 1 0) with false. intros [= <-]. lra.
    + apply Qltb_ge in E1. destruct (Qltb x 0) eqn:E0.
      * intros [= <-]. lra.
      * apply Qltb_ge in E0. intros [= <-]. lra.
  - cbn. discriminate.
Qed.

(** X16: whenever [art_qi2] returns, the path it returns is the absolute
    path of [out_file], that file exists, and a finite goodness of fit lies
    between 0 and 1, whatever the fit computes. *)
Theorem art_qi2_returns (erosion : list bool -> list bool)
    (abspath : string -> string) (chi_fit : list Q -> Z -> fl * (fl -> string))
    (openable : string -> bool)
    (img : list Q) (airmask : ndarray) (ncoils : Z) (erodemask : bool)
    (out_file : string) (min_voxels : Q) (fs fs' : gmap string string)
    (gof : fl) (path : string) :
  art_qi2 erosion abspath chi_fit openable img airmask ncoils erodemask out_file
          min_voxels fs = (Ok (gof, path), fs') ->
  path = abspath out_file /\
  is_Some (fs' !! path) /\
  (forall g, gof = Some g -> 0 <= g <= 1).
Proof.
  unfold art_qi2.
  destruct (openable (abspath out_file)); [cbn [negb] | discriminate].
  destruct (bool_index img _) as [data | e]; [| discriminate].
  destruct (Qltb _ min_voxels).
  - intros [= <- <- <-]. split; [reflexivity |]. split; [apply touch_exists |].
    intros g [= <-]. lra.
  - destruct (chi_fit _ ncoils) as [g0 dump].
    intros [= Hg <- <-]. split; [reflexivity |].
    split; [rewrite lookup_insert_eq; eauto |].
    intros g Hgof. rewrite Hgof in Hg. exact (clip_range g0 g Hg).
Qed.

Lemma art_qi2_returns_witness :
  exists gof fs',
    art_qi2 (erosion3 (1, 1, 3)%Z) (abspath_from "/work")
      (fun data _ => (Some (7 # 2), fun g => "gof")) (openable_under "/tmp")
      [5; 6; 7] (IntArr [1; 1; 1]%Z) 12 false "/tmp/qi2.txt" 2 ∅
    = (Ok (gof, "/tmp/qi2.txt"), fs') /\
    is_Some (fs' !! "/tmp/qi2.txt") /\
    (forall g, gof = Some g -> 0 <= g <= 1).
Proof.
  eexists. eexists. split; [vm_compute; reflexivity |].
  apply (art_qi2_returns (erosion3 (1, 1, 3)%Z) (abspath_from "/work")
           (fun data _ => (Some (7 # 2), fun g => "gof"))
           (openable_under "/tmp") [5; 6; 7] (IntArr [1; 1; 1]%Z) 12 false "/tmp/qi2.txt" 2 ∅).
  vm_compute. reflexivity.
Defined.

(** X17: when the diagnostic file can be opened, the short circuit leaves the file system as it finds it, apart
    from creating an empty diagnostic file when there was none: a record
    left by an earlier run stays in place. *)
Theorem art_qi2_short_circuit_content (erosion : list bool -> list bool)
    (abspath : string -> string) (chi_fit : list Q -> Z -> fl * (fl -> string))
    (openable : string -> bool)
    (img : list Q) (airmask : ndarray) (ncoils : Z) (erodemask : bool)
    (out_file : string) (min_voxels : Q) (fs : gmap string string) :
  let air :=
    if erodemask then astype_uint8 (erosion (nonzero airmask)) else airmask in
  let positive := filter (fun x => Qltb 0 x = true) (pick img (gt0 air)) in
  openable (abspath out_file) = true ->
  length img = length (gt0 air) ->
  inject_Z (Z.of_nat (length positive)) < min_voxels ->
  let fs' := (art_qi2 erosion abspath chi_fit openable img airmask ncoils erodemask
                out_file min_voxels fs).2 in
  fs' !! abspath out_file = Some (default "" (fs !! abspath out_file)) /\
  (is_Some (fs !! abspath out_file) -> fs' = fs).
Proof.
  intros air positive Hopen Hlen Hfew.
  rewrite art_qi2_opened by exact Hopen. unfold art_qi2. fold air.
  cbn [negb].
  rewrite (bool_index_same_length _ _ Hlen). fold positive.
  apply Qltb_lt in Hfew. rewrite Hfew. cbn [snd]. unfold touch.
  destruct (fs !! abspath out_file) as [content |] eqn:E.
  - split; [exact E | reflexivity].
  - split; [apply lookup_insert_eq | intros [? [=]]].
Qed.

Lemma art_qi2_short_circuit_content_witness :
  let fs : gmap string string := <["/work/qi2_fitting.txt" := "stale"]> ∅ in
  (art_qi2 (erosion3 (1, 1, 3)%Z) (abspath_from "/work") chi_fit_nan
     (openable_under "/work") [5; 6; 7] (IntArr [1; 1; 1]%Z) 12 false "qi2_fitting.txt" 1000 fs).2
  !! "/work/qi2_fitting.txt" = Some "stale".
Proof.
  intros fs.
  apply (proj1 (art_qi2_short_circuit_content (erosion3 (1, 1, 3)%Z)
                  (abspath_from "/work") chi_fit_nan (openable_under "/work")
                  [5; 6; 7] (IntArr [1; 1; 1]%Z) 12 false "qi2_fitting.txt"
                  1000 fs eq_refl eq_refl eq_refl)).
Defined.

(** X18: when the diagnostic file can be opened and the air mask is not on
    the grid of the volume, [art_qi2] raises [IndexError], and the
    diagnostic file has been created all the same. *)
Theorem art_qi2_off_grid (erosion : list bool -> list bool)
    (abspath : string -> string) (chi_fit : list Q -> Z -> fl * (fl -> string))
    (openable : string -> bool)
    (img : list Q) (airmask : ndarray) (ncoils : Z)
    (out_file : string) (min_voxels : Q) (fs : gmap string string) :
  openable (abspath out_file) = true ->
  length img <> arr_len airmask ->
  exists fs',
    art_qi2 erosion abspath chi_fit openable img airmask ncoils false out_file
            min_voxels fs = (Raise IndexError, fs') /\
    is_Some (fs' !! abspath out_file).
Proof.
  intros Hopen Hlen. rewrite art_qi2_opened by exact Hopen.
  unfold art_qi2, bool_index. cbn [negb]. rewrite length_gt0.
  destruct (length img =? arr_len airmask)%nat eqn:E.
  { apply Nat.eqb_eq in E. contradiction. }
  eexists. split; [reflexivity | apply touch_exists].
Qed.

Lemma art_qi2_off_grid_witness :
  exists fs',
    art_qi2 (erosion3 (1, 1, 3)%Z) (abspath_from "/work") chi_fit_nan
      (openable_under "/work") [5; 6; 7] (IntArr [1; 1]%Z) 12 false "qi2_fitting.txt" 1000 ∅
    = (Raise IndexError, fs') /\
    is_Some (fs' !! abspath_from "/work" "qi2_fitting.txt").
Proof.
  apply art_qi2_off_grid; [reflexivity | cbn; lia].
Defined.

(** Past the short circuit, the diagnostic file is overwritten with the
    record of the very goodness of fit that is returned. *)
Lemma art_qi2_writes_record (erosion : list bool -> list bool)
    (abspath : string -> string) (chi_fit : list Q -> Z -> fl * (fl -> string))
    (openable : string -> bool)
    (img : list Q) (airmask : ndarray) (ncoils : Z) (erodemask : bool)
    (out_file : string) (min_voxels : Q) (fs : gmap string string) :
  let air :=
    if erodemask then astype_uint8 (erosion (nonzero airmask)) else airmask in
  let positive := filter (fun x => Qltb 0 x = true) (pick img (gt0 air)) in
  openable (abspath out_file) = true ->
  length img = length (gt0 air) ->
  min_voxels <= inject_Z (Z.of_nat (length positive)) ->
  exists gof fs',
    art_qi2 erosion abspath chi_fit openable img airmask ncoils erodemask out_file
            min_voxels fs = (Ok (gof, abspath out_file), fs') /\
    fs' !! abspath out_file = Some ((chi_fit positive ncoils).2 gof) /\
    forall p, p <> abspath out_file -> fs' !! p = fs !! p.
Proof.
  intros air positive Hopen Hlen Hmany.
  rewrite art_qi2_opened by exact Hopen. unfold art_qi2. fold air.
  cbn [negb].
  rewrite (bool_index_same_length _ _ Hlen). fold positive.
  apply Qltb_ge in Hmany. rewrite Hmany.
  destruct (chi_fit positive ncoils) as [g0 dump]. cbn [snd].
  eexists. eexists. split; [reflexivity |]. split.
  - apply lookup_insert_eq.
  - intros p Hp. rewrite lookup_insert_ne by congruence.
    apply touch_other. exact Hp.
Qed.

Example art_qi2_writes_record_example :
  exists gof fs',
    art_qi2 (erosion3 (1, 1, 3)%Z) (abspath_from "/work")
      (fun data _ => (Some (7 # 2), fun g => "gof")) (openable_under "/tmp")
      [5; 6; 7] (IntArr [1; 1; 1]%Z) 12 false "/tmp/qi2.txt" 2 ∅
    = (Ok (gof, "/tmp/qi2.txt"), fs') /\
    fs' !! "/tmp/qi2.txt" = Some "gof" /\
    forall p, p <> "/tmp/qi2.txt" -> fs' !! p = (∅ : gmap string string) !! p.
Proof.
  apply (art_qi2_writes_record (erosion3 (1, 1, 3)%Z) (abspath_from "/work")
           (fun data _ => (Some (7 # 2), fun g => "gof"))
           (openable_under "/tmp") [5; 6; 7] (IntArr [1; 1; 1]%Z) 12 false "/tmp/qi2.txt" 2 ∅).
  - reflexivity.
  - reflexivity.
  - vm_compute. discriminate.
Defined.

(** ** More on [volume_fraction] *)

Lemma volume_fraction_three (a b c : list Q) (rest : list (list Q)) :
  volume_fraction (a :: b :: c :: rest)
  = Ok ((fun v => fl_div (Some v) (Some (0 + Qsum a + Qsum b + Qsum c))) <$>
        (<["wm" := Qsum c]> (<["gm" := Qsum b]> (<["csf" := Qsum a]> ∅)))).
Proof.
  unfold volume_fraction. cbn -[Qsum Qplus py_index fmap].
  change (py_index (a :: b :: c :: rest) (1 - 1)) with (Ok a).
  change (py_index (a :: b :: c :: rest) (2 - 1)) with (Ok b).
  change (py_index (a :: b :: c :: rest) (3 - 1)) with (Ok c).
  reflexivity.
Qed.

(** X19: [volume_fraction] fails exactly when fewer than three maps are
    given, with [IndexError]; maps after the third are ignored. *)
Theorem volume_fraction_arity (pvms : list (list Q)) :
  (forall e, volume_fraction pvms = Raise e <->
             (length pvms < 3)%nat /\ e = IndexError) /\
  (forall a b c rest, pvms = a :: b :: c :: rest ->
     volume_fraction pvms = volume_fraction [a; b; c]).
Proof.
  split.
  - intros e. destruct pvms as [| a [| b [| c rest]]].
    + split; [intros [= <-]; cbn; split; [lia | reflexivity] |].
      intros [_ ->]. reflexivity.
    + split; [intros [= <-]; cbn; split; [lia | reflexivity] |].
      intros [_ ->]. reflexivity.
    + split; [intros [= <-]; cbn; split; [lia | reflexivity] |].
      intros [_ ->]. reflexivity.
    + rewrite volume_fraction_three. split; [discriminate |].
      cbn [length]. intros [H _]. lia.
  - intros a b c rest ->. rewrite !volume_fraction_three. reflexivity.
Qed.

Lemma volume_fraction_arity_witness :
  volume_fraction [[1; 0]; [0; 1]] = Raise IndexError /\
  volume_fraction [[1; 0]; [0; 1]; [1; 1]; [5; 5]]
  = volume_fraction [[1; 0]; [0; 1]; [1; 1]].
Proof.
  split.
  - apply (proj1 (volume_fraction_arity [[1; 0]; [0; 1]])).
    split; [cbn; lia | reflexivity].
  - apply (proj2 (volume_fraction_arity [[1; 0]; [0; 1]; [1; 1]; [5; 5]])
             [1; 0] [0; 1] [1; 1] [[5; 5]] eq_refl).
Defined.

(** X20: when the three maps sum to zero altogether, [volume_fraction]
    does not fail: it returns nan for each tissue. *)
Theorem volume_fraction_zero_total (csf gm wm : list Q) :
  Qsum csf + Qsum gm + Qsum wm == 0 ->
  volume_fraction [csf; gm; wm]
  = Ok (<["wm" := None]> (<["gm" := None]> (<["csf" := None]> ∅))).
Proof.
  intros Hz. rewrite volume_fraction_three.
  rewrite !fmap_insert, fmap_empty. unfold fl_div.
  assert (E : Qeq_bool (0 + Qsum csf + Qsum gm + Qsum wm) 0 = true).
  { apply Qeq_bool_iff. lra. }
  rewrite E. reflexivity.
Qed.

Lemma volume_fraction_zero_total_witness :
  volume_fraction [[0; 0]; [0; 0]; [0; 0]]
  = Ok (<["wm" := None]> (<["gm" := None]> (<["csf" := None]> ∅))).
Proof.
  apply volume_fraction_zero_total. reflexivity.
Defined.

(** ** More on [rpve] *)

Lemma setitem_zero_le (test : Q -> bool) (a : list Q) :
  Forall (fun x => 0 <= x) a ->
  Forall (fun x => 0 <= x) (setitem_where test 0 a) /\
  Qsum (setitem_where test 0 a) <= Qsum a.
Proof.
  induction 1 as [| x a Hx _ [IH1 IH2]]; cbn [setitem_where map].
  - split; [constructor | apply Qle_refl].
  - fold (setitem_where test 0 a).
    change (Qsum (?y :: ?l)) with (y + Qsum l).
    destruct (test x).
    + split; [constructor; [lra | exact IH1] |].
      change (Qsum (0 :: setitem_where test 0 a))
        with (0 + Qsum (setitem_where test 0 a)).
      change (Qsum (x :: a)) with (x + Qsum a). lra.
    + split; [constructor; assumption |].
      change (Qsum (x :: setitem_where test 0 a))
        with (x + Qsum (setitem_where test 0 a)).
      change (Qsum (x :: a)) with (x + Qsum a). lra.
Qed.

Lemma positive_part_sum_nonneg (a : list Q) : 0 <= Qsum (positive_part a).
Proof.
  induction a as [| x a IH]; [cbn; lra |].
  rewrite positive_part_cons. destruct (Qltb 0 x) eqn:E; [| exact IH].
  apply Qltb_lt in E. change (0 <= x + Qsum (positive_part a)). lra.
Qed.

Lemma positive_part_sum_le (a : list Q) :
  Forall (fun x => 0 <= x) a -> Qsum (positive_part a) <= Qsum a.
Proof.
  induction 1 as [| x a Hx _ IH]; [apply Qle_refl |].
  rewrite positive_part_cons. change (Qsum (x :: a)) with (x + Qsum a).
  destruct (Qltb 0 x).
  - change (x + Qsum (positive_part a) <= x + Qsum a). lra.
  - lra.
Qed.

Lemma clip_negative_sum (a : list Q) :
  Forall (fun x => 0 <= x) (setitem_where (fun x => Qltb x 0) 0 a) /\
  Qsum (setitem_where (fun x => Qltb x 0) 0 a) <= Qsum (positive_part a).
Proof.
  induction a as [| x a [IH1 IH2]]; [split; [constructor | apply Qle_refl] |].
  rewrite positive_part_cons. cbn [setitem_where map].
  fold (setitem_where (fun x => Qltb x 0) 0 a).
  destruct (Qltb x 0) eqn:En.
  - apply Qltb_lt in En.
    assert (E0 : Qltb 0 x = false) by (apply Qltb_ge; lra).
    rewrite E0. split; [constructor; [lra | exact IH1] |].
    change (0 + Qsum (setitem_where (fun x => Qltb x 0) 0 a)
            <= Qsum (positive_part a)). lra.
  - apply Qltb_ge in En. split; [constructor; assumption |].
    change (x + Qsum (setitem_where (fun x => Qltb x 0) 0 a)
            <= Qsum (if Qltb 0 x then x :: positive_part a else positive_part a)).
    destruct (Qltb 0 x) eqn:Ep.
    + change (Qsum (x :: positive_part a)) with (x + Qsum (positive_part a)). lra.
    + apply Qltb_ge in Ep. lra.
Qed.

(** The trimmed sum of a tissue lies between 0 and the sum of the positive
    values of its map in its region. *)
Lemma trimmed_sum_bounds (pvm : list Q) (m : list bool) (t : Q) :
  trimmed_sum pvm m = Ok t ->
  0 <= t <= Qsum (positive_part (pick pvm m)).
Proof.
  unfold trimmed_sum, clipped. cbv zeta.
  set (sel := pick pvm m).
  destruct (clip_negative_sum sel) as [P1 L1].
  set (s1 := setitem_where (fun x => Qltb x 0) 0 sel) in *.
  destruct (setitem_zero_le (fun x => Qle_bool 1 x) s1 P1) as [P2 L2].
  set (s2 := setitem_where (fun x => Qle_bool 1 x) 0 s1) in *.
  destruct (percentile (positive_part s2) 98) as [upth | e]; [| discriminate].
  destruct (percentile (positive_part s2) 2) as [loth | e]; [| discriminate].
  cbn [mbind result_bind]. intros [= <-].
  split; [apply positive_part_sum_nonneg |].
  destruct (setitem_zero_le (below loth) s2 P2) as [P3 L3].
  set (s3 := setitem_where (below loth) 0 s2) in *.
  destruct (setitem_zero_le (above upth) s3 P3) as [P4 L4].
  set (s4 := setitem_where (above upth) 0 s3) in *.
  pose proof (positive_part_sum_le s4 P4). lra.
Qed.

(** X21: for three maps on the grid of the segmentation, each with a
    partial volume in its tissue's region, [rpve] returns for each tissue a
    value between 0 and the sum of the positive values of the tissue's map
    inside the tissue's own region: clipping and trimming only remove
    mass. *)
Theorem rpve_bounds (p1 p2 p3 seg : loc) (a1 a2 a3 s : ndarray) (h : heap) :
  h !! p1 = Some a1 -> h !! p2 = Some a2 -> h !! p3 = Some a3 ->
  h !! seg = Some s ->
  arr_len a1 = arr_len s -> arr_len a2 = arr_len s -> arr_len a3 = arr_len s ->
  has_partial (pick (floats a1) (eq_int 1 s)) = true ->
  has_partial (pick (floats a2) (eq_int 2 s)) = true ->
  has_partial (pick (floats a3) (eq_int 3 s)) = true ->
  exists out,
    (rpve [p1; p2; p3] seg h).1 = Ok out /\
    forall k lid a v,
      (k, lid, a) ∈ [("csf", 1%Z, a1); ("gm", 2%Z, a2); ("wm", 3%Z, a3)] ->
      out !! k = Some v ->
      0 <= v <= Qsum (positive_part (pick (floats a) (eq_int lid s))).
Proof.
  intros H1 H2 H3 Hs L1 L2 L3 P1 P2 P3.
  destruct (trimmed_sum_partial _ _ P1) as [t1 E1].
  destruct (trimmed_sum_partial _ _ P2) as [t2 E2].
  destruct (trimmed_sum_partial _ _ P3) as [t3 E3].
  eexists. split.
  { rewrite (rpve_value p1 p2 p3 seg a1 a2 a3 s h) by assumption.
    rewrite E1, E2, E3. reflexivity. }
  intros k lid a v Hin Hv.
  repeat (apply elem_of_cons in Hin as [[= -> -> ->] | Hin]);
    [| | | apply elem_of_nil in Hin; contradiction];
    rewrite ?lookup_insert_ne in Hv by done;
    rewrite lookup_insert_eq in Hv; injection Hv as <-;
    eapply trimmed_sum_bounds; eassumption.
Qed.

Lemma rpve_bounds_witness :
  let csf := FloatArr [1 # 2; 9 # 10; 0; 0; 0; 0; 0] in
  let gm := FloatArr [1 # 2; 1 # 10; 1; - (1 # 5); 2 # 5; 0; 0] in
  let wm := FloatArr [0; 0; 0; 0; 0; 3 # 4; 3 # 2] in
  let seg := IntArr [1; 1; 2; 2; 2; 3; 3]%Z in
  exists out,
    (rpve [0; 1; 2]%nat 3%nat [csf; gm; wm; seg]).1 = Ok out /\
    forall v, out !! "gm" = Some v -> 0 <= v <= 7 # 5.
Proof.
  intros csf gm wm seg.
  destruct (rpve_bounds 0%nat 1%nat 2%nat 3%nat csf gm wm seg [csf; gm; wm; seg]
              eq_refl eq_refl eq_refl eq_refl eq_refl eq_refl eq_refl
              eq_refl eq_refl eq_refl)
    as (out & Hout & Hb).
  exists out. split; [exact Hout |].
  intros v Hv.
  assert (Hin : ("gm", 2%Z, gm)
                ∈ [("csf", 1%Z, csf); ("gm", 2%Z, gm); ("wm", 3%Z, wm)]).
  { apply elem_of_cons. right. apply elem_of_cons. left. reflexivity. }
  pose proof (Hb "gm" 2%Z gm v Hin Hv) as [Hlo Hhi].
  split; [exact Hlo |].
  eapply Qle_trans; [exact Hhi |]. vm_compute. intros H. discriminate H.
Defined.

(** X22: for three maps on the grid of the segmentation, [rpve] returns
    exactly when every tissue has a value strictly between 0 and 1 inside
    its region; one tissue whose map is crisp there (a region of full
    voxels, or an empty region) makes the call raise [IndexError], and no
    tissue gets a value. *)
Theorem rpve_crisp (p1 p2 p3 seg : loc) (a1 a2 a3 s : ndarray) (h : heap) :
  h !! p1 = Some a1 -> h !! p2 = Some a2 -> h !! p3 = Some a3 ->
  h !! seg = Some s ->
  arr_len a1 = arr_len s -> arr_len a2 = arr_len s -> arr_len a3 = arr_len s ->
  let partial :=
    has_partial (pick (floats a1) (eq_int 1 s))
    && has_partial (pick (floats a2) (eq_int 2 s))
    && has_partial (pick (floats a3) (eq_int 3 s)) in
  (partial = false -> (rpve [p1; p2; p3] seg h).1 = Raise IndexError) /\
  (partial = true -> exists out, (rpve [p1; p2; p3] seg h).1 = Ok out).
Proof.
  intros H1 H2 H3 Hs L1 L2 L3 partial. subst partial.
  rewrite (rpve_value p1 p2 p3 seg a1 a2 a3 s h) by assumption.
  destruct (has_partial (pick (floats a1) (eq_int 1 s))) eqn:P1.
  2:{ rewrite (trimmed_sum_crisp _ _ P1). split; [reflexivity | discriminate]. }
  destruct (trimmed_sum_partial _ _ P1) as [t1 ->].
  destruct (has_partial (pick (floats a2) (eq_int 2 s))) eqn:P2.
  2:{ rewrite (trimmed_sum_crisp _ _ P2). split; [reflexivity | discriminate]. }
  destruct (trimmed_sum_partial _ _ P2) as [t2 ->].
  destruct (has_partial (pick (floats a3) (eq_int 3 s))) eqn:P3.
  2:{ rewrite (trimmed_sum_crisp _ _ P3). split; [reflexivity | discriminate]. }
  destruct (trimmed_sum_partial _ _ P3) as [t3 ->].
  split; [discriminate | intros _; eexists; reflexivity].
Qed.

Lemma rpve_crisp_witness :
  let csf := FloatArr [1 # 2; 1 # 4; 0; 0; 0; 0] in
  let gm := FloatArr [0; 0; 1 # 2; 3 # 5; 0; 0] in
  let wm := FloatArr [0; 0; 0; 0; 1; 1] in
  let seg := IntArr [1; 1; 2; 2; 3; 3]%Z in
  (rpve [0; 1; 2]%nat 3%nat [csf; gm; wm; seg]).1 = Raise IndexError.
Proof.
  intros csf gm wm seg.
  apply (proj1 (rpve_crisp 0%nat 1%nat 2%nat 3%nat csf gm wm seg
                  [csf; gm; wm; seg]
                  eq_refl eq_refl eq_refl eq_refl eq_refl eq_refl eq_refl)).
  reflexivity.
Defined.

(** ** More on [summary_stats] *)

Lemma stats_loop_unbound (sqrtQ : Q -> Q) (img : list Q) (pvms : list (list Q)) :
  length pvms <> 4%nat -> length pvms <> 2%nat ->
  stats_loop sqrtQ img pvms = Raise UnboundLocalError.
Proof.
  intros H4 H2. unfold stats_loop.
  rewrite (proj2 (Nat.eqb_neq _ _) H4), (proj2 (Nat.eqb_neq _ _) H2).
  reflexivity.
Qed.

Lemma length_set_background (bgdata : option (list Q)) (pvms : list (list Q)) :
  length (set_background bgdata pvms) = length pvms.
Proof. destruct bgdata; [apply length_insert | reflexivity]. Qed.

(** X23: which lists of maps [summary_stats] accepts.  An empty list raises
    [RuntimeError].  On a grid without an axis of length one, a list of
    maps of one size that has two maps, or four and more, leaves [labels]
    unbound ([UnboundLocalError]), with or without background data.  On a
    grid with an axis of length one no list is accepted at all: the
    squeezed stack has the wrong number of axes. *)
Theorem summary_stats_list_length (sqrtQ : Q -> Q) (shape : nat * nat * nat)
    (img : list Q) (l : list (list Q)) (bgdata : option (list Q)) :
  (l = [] ->
   (summary_stats sqrtQ shape img (PvmList l) bgdata).1 = Raise RuntimeError) /\
  (unit_axes shape = 0%nat ->
   same_size l = true -> (2 <= length l)%nat -> length l <> 3%nat ->
   (summary_stats sqrtQ shape img (PvmList l) bgdata).1
   = Raise UnboundLocalError) /\
  (unit_axes shape <> 0%nat ->
   forall out,
     (summary_stats sqrtQ shape img (PvmList l) bgdata).1 <> Ok out).
Proof.
  split; [intros ->; reflexivity | split].
  - intros Hu Hsz Hlen Hne. destruct l as [| a [| b rest]]; cbn in Hlen; try lia.
    unfold summary_stats.
    rewrite (squeezed_ndim_stack shape a b rest Hu), Hsz.
    cbn [Nat.eqb fst]. apply stats_loop_unbound;
      rewrite length_set_background; cbn [length] in *; lia.
  - intros Hu out. unfold summary_stats, squeezed_ndim.
    destruct l as [| a [| b rest]]; [discriminate | |].
    + cbn [length Nat.eqb].
      destruct (unit_axes shape) as [| [| [| u]]]; [congruence | | |];
        discriminate.
    + cbn [length Nat.eqb].
      destruct (unit_axes shape) as [| [| [| u]]]; [congruence | | |];
        try discriminate.
      cbn [Nat.sub Nat.add Nat.eqb].
      destruct bgdata as [bg |]; [| discriminate].
      cbn [fst].
      destruct (where_select img (map (Qltb (1 # 2)) bg)) as [sel | e];
        [| discriminate].
      cbn [mbind result_bind].
      destruct (region_stats sqrtQ sel); discriminate.
Qed.

Lemma summary_stats_list_length_witness :
  (summary_stats sqrt_fix (2, 2, 2)%nat [1; 2; 3; 4; 5; 6; 7; 8]
     (PvmList [[1; 1; 1; 1; 0; 0; 0; 0]; [0; 0; 0; 0; 1; 1; 1; 1]]) None).1
  = Raise UnboundLocalError /\
  forall out,
    (summary_stats sqrt_fix (1, 2, 2)%nat [1; 2; 3; 4]
       (PvmList [[1; 0; 0; 0]; [0; 1; 0; 0]; [0; 0; 1; 1]]) None).1 <> Ok out.
Proof.
  split.
  - apply (proj1 (proj2 (summary_stats_list_length sqrt_fix (2, 2, 2)%nat
                           [1; 2; 3; 4; 5; 6; 7; 8]
                           [[1; 1; 1; 1; 0; 0; 0; 0]; [0; 0; 0; 0; 1; 1; 1; 1]]
                           None))).
    + reflexivity.
    + reflexivity.
    + cbn. lia.
    + cbn. lia.
  - apply (proj2 (proj2 (summary_stats_list_length sqrt_fix (1, 2, 2)%nat
                           [1; 2; 3; 4]
                           [[1; 0; 0; 0]; [0; 1; 0; 0]; [0; 0; 1; 1]] None))).
    cbn. lia.
Defined.

Lemma complement_above_half (v : Q) : Qltb (1 # 2) (1 - v) = Qltb v (1 # 2).
Proof.
  destruct (Qltb v (1 # 2)) eqn:E.
  - apply Qltb_lt in E. apply Qltb_lt. lra.
  - apply Qltb_ge in E. apply Qltb_ge. lra.
Qed.

(** X24: for a single map on a grid without an axis of length one,
    [summary_stats] returns the two entries [bg] and [fg] when neither
    region is empty: the foreground is where the map exceeds 0.5 and the
    background where it is below 0.5, so a voxel at exactly 0.5 enters
    neither.  The caller's array is left as it was. *)
Theorem summary_stats_single_map (sqrtQ : Q -> Q) (shape : nat * nat * nat)
    (img a : list Q) :
  let fg := pick img (map (Qltb (1 # 2)) a) in
  let bg := pick img (map (fun v => Qltb v (1 # 2)) a) in
  unit_axes shape = 0%nat ->
  on_grid shape img -> on_grid shape a ->
  fg <> [] -> bg <> [] ->
  exists st_fg st_bg,
    region_stats sqrtQ fg = Ok st_fg /\
    region_stats sqrtQ bg = Ok st_bg /\
    summary_stats sqrtQ shape img (PvmArray a) None
    = (Ok (<["fg" := st_fg]> (<["bg" := st_bg]> ∅)), PvmArray a).
Proof.
  intros fg bg Hu Hi Ga Hfg Hbg.
  pose proof (on_grid_length shape a img Ga Hi) as Hlen.
  pose proof (region_stats_nonempty sqrtQ fg Hfg) as Sf.
  pose proof (region_stats_nonempty sqrtQ bg Hbg) as Sb.
  eexists. eexists. split; [exact Sf |]. split; [exact Sb |].
  unfold summary_stats, squeezed_ndim. rewrite Hu.
  cbn [Nat.sub Nat.eqb set_background]. unfold stats_loop.
  cbn [length Nat.eqb mbind result_bind for_each].
  assert (Hl : length (map (fun v => 1 - v) a) = length img).
  { rewrite length_map. exact Hlen. }
  assert (Sb' : region_stats sqrtQ
                  (pick img (map (Qltb (1 # 2)) (map (fun v => 1 - v) a)))
                = region_stats sqrtQ bg).
  { rewrite map_map.
    rewrite (map_ext (fun v => Qltb (1 # 2) (1 - v)) (fun v => Qltb v (1 # 2))
               complement_above_half).
    reflexivity. }
  rewrite Sb in Sb'.
  rewrite (stats_of_label_at sqrtQ img [map (fun v => 1 - v) a; a] "bg" 0
             (map (fun v => 1 - v) a) _ ∅ eq_refl Hl Sb').
  cbn [mbind result_bind].
  rewrite (stats_of_label_at sqrtQ img [map (fun v => 1 - v) a; a] "fg" 1
             a _ _ eq_refl Hlen Sf).
  reflexivity.
Qed.

Lemma summary_stats_single_map_witness :
  let img := [10; 20; 30; 40; 50; 60; 70; 80] in
  let a := [1 # 4; 1 # 2; 3 # 4; 1; 0; 1; 0; 1 # 2] in
  exists st_fg st_bg,
    region_stats sqrt_fix [30; 40; 60] = Ok st_fg /\
    region_stats sqrt_fix [10; 50; 70] = Ok st_bg /\
    summary_stats sqrt_fix (2, 2, 2)%nat img (PvmArray a) None
    = (Ok (<["fg" := st_fg]> (<["bg" := st_bg]> ∅)), PvmArray a).
Proof.
  intros img a.
  apply (summary_stats_single_map sqrt_fix (2, 2, 2)%nat img a);
    try reflexivity; discriminate.
Defined.

(** X25: for three maps on a grid without an axis of length one, regions
    that are not empty and no background data, the [bg] entry is computed
    over the voxels where the three maps add up to more than 0.5 (the
    tissue, not its complement); background data, when given, replaces
    that sum.  The map used for [bg] is put in front of the caller's list,
    so a second call with the same list, now of four maps, raises
    [UnboundLocalError]. *)
Theorem summary_stats_background (sqrtQ : Q -> Q) (shape : nat * nat * nat)
    (img csf gm wm : list Q) (bgdata : option (list Q)) :
  let region := fun pvm : list Q => pick img (map (Qltb (1 # 2)) pvm) in
  let bgmap :=
    match bgdata with
    | Some bg => bg
    | None => zip_with Qplus csf (zip_with Qplus gm wm)
    end in
  unit_axes shape = 0%nat ->
  on_grid shape img ->
  on_grid shape csf -> on_grid shape gm -> on_grid shape wm ->
  (forall bg, bgdata = Some bg -> on_grid shape bg) ->
  region csf <> [] -> region gm <> [] -> region wm <> [] ->
  region bgmap <> [] ->
  let first := summary_stats sqrtQ shape img (PvmList [csf; gm; wm]) bgdata in
  exists out st_bg,
    first.1 = Ok out /\
    region_stats sqrtQ (region bgmap) = Ok st_bg /\
    out !! "bg" = Some st_bg /\
    dom out = {["csf"; "gm"; "wm"; "bg"]} /\
    first.2 = PvmList [bgmap; csf; gm; wm] /\
    (summary_stats sqrtQ shape img first.2 bgdata).1 = Raise UnboundLocalError.
Proof.
  intros region bgmap Hu Hi Gc Gg Gw Gbg Rc Rg Rw Rb first.
  pose proof (on_grid_length shape csf img Gc Hi) as Hc.
  pose proof (on_grid_length shape gm img Gg Hi) as Hg.
  pose proof (on_grid_length shape wm img Gw Hi) as Hw.
  assert (Hbg : forall bg, bgdata = Some bg -> length bg = length img).
  { intros bg Hb. exact (on_grid_length shape bg img (Gbg bg Hb) Hi). }
  pose proof (region_stats_nonempty sqrtQ (region csf) Rc) as Sc.
  pose proof (region_stats_nonempty sqrtQ (region gm) Rg) as Sg.
  pose proof (region_stats_nonempty sqrtQ (region wm) Rw) as Sw.
  pose proof (region_stats_nonempty sqrtQ (region bgmap) Rb) as Sb.
  assert (Hb : length bgmap = length img).
  { subst bgmap. destruct bgdata as [bg |]; [apply Hbg; reflexivity |].
    rewrite !length_zip_with. lia. }
  subst first.
  rewrite (summary_stats_stack sqrtQ shape img csf gm wm bgdata _ _ _ _
             Hu Hc Hg Hw Hbg Sc Sg Sw Sb).
  cbn [fst snd]. fold bgmap.
  eexists. eexists. split; [reflexivity |].
  split; [exact Sb |].
  split; [apply lookup_insert_eq |].
  split; [rewrite !dom_insert_L, dom_empty_L; set_solver |].
  split; [reflexivity |].
  rewrite summary_stats_four_maps; [reflexivity | exact Hu |].
  unfold same_size, forallb. rewrite Hc, Hg, Hw.
  change (length match bgdata with
                 | Some bg => bg
                 | None => sum_axis0 [csf; gm; wm]
                 end) with (length bgmap).
  rewrite Hb, Nat.eqb_refl. reflexivity.
Qed.

Lemma summary_stats_background_witness :
  let img := [1; 2; 3; 4; 5; 6; 7; 8] in
  let csf := [0; 0; 1; 1; 0; 0; 0; 0] in
  let gm := [0; 0; 0; 0; 1; 1; 0; 0] in
  let wm := [0; 0; 0; 0; 0; 0; 1; 1] in
  let first :=
    summary_stats sqrt_fix (2, 2, 2)%nat img (PvmList [csf; gm; wm]) None in
  exists out st_bg,
    first.1 = Ok out /\
    region_stats sqrt_fix [3; 4; 5; 6; 7; 8] = Ok st_bg /\
    out !! "bg" = Some st_bg /\
    dom out = {["csf"; "gm"; "wm"; "bg"]} /\
    first.2 = PvmList [[0; 0; 1; 1; 1; 1; 1; 1]; csf; gm; wm] /\
    (summary_stats sqrt_fix (2, 2, 2)%nat img first.2 None).1
    = Raise UnboundLocalError.
Proof.
  intros img csf gm wm.
  apply (summary_stats_background sqrt_fix (2, 2, 2)%nat img csf gm wm None);
    try reflexivity; try discriminate.
Defined.

(** ** More on the upload client *)

Lemma metadata_not_whitelisted : "metadata" ∉ WebAPI.META_WHITELIST.
Proof.
  intros H. unfold WebAPI.META_WHITELIST in H.
  repeat (apply elem_of_cons in H as [H | H]; [discriminate H |]).
  apply elem_of_nil in H. exact H.
Qed.

Lemma whitelisted_lookup_None (m : gmap string WebAPI.json) (k : string) :
  k ∉ WebAPI.META_WHITELIST -> WebAPI.whitelisted m !! k = None.
Proof.
  intros Hk. unfold WebAPI.whitelisted. apply map_lookup_filter_None.
  right. intros x _. exact Hk.
Qed.

Lemma without_metadata_lookup (m : gmap string WebAPI.json) (k : string) :
  filter (fun kv : string * WebAPI.json => kv.1 ≠ "metadata") m !! k
  = if decide (k = "metadata") then None else m !! k.
Proof.
  destruct (decide (k = "metadata")) as [-> | Hne].
  - apply map_lookup_filter_None. right. intros x _ H. apply H. reflexivity.
  - destruct (m !! k) as [x |] eqn:E.
    + apply map_lookup_filter_Some. split; [exact E | exact Hne].
    + apply map_lookup_filter_None. left. exact E.
Qed.



Lemma email_not_whitelisted : "email" ∉ WebAPI.META_WHITELIST.
Proof.
  intros H. unfold WebAPI.META_WHITELIST in H.
  repeat (apply elem_of_cons in H as [H | H]; [discriminate H |]).
  apply elem_of_nil in H. exact H.
Qed.

Lemma upload_body (dumps : gmap string WebAPI.json -> string)
    (py_str : WebAPI.json -> string)
    (http_post : WebAPI.request -> WebAPI.post_outcome)
    (in_data metadata data : gmap string WebAPI.json) (addr : string) (port : Z)
    (email : option string) :
  in_data !! "metadata" = Some (WebAPI.JObj metadata) ->
  WebAPI.known_modality
    (default (WebAPI.JStr "None") (metadata !! "modality")) = true ->
  upload_payload in_data metadata email = Ok data ->
  exists req,
    (WebAPI.upload_qc_metrics dumps py_str http_post in_data addr port email).1
    = [req] /\
    WebAPI.body req = dumps data.
Proof.
  intros Hmeta Hk. unfold upload_payload, WebAPI.upload_qc_metrics.
  rewrite Hmeta, Hk. cbn [negb].
  destruct (in_data !! "settings") as [[| b | q | s | l | settings] |];
    cbn [mbind result_bind]; try discriminate;
    intros [= <-];
    match goal with
    | |- context [http_post ?r] =>
      destruct (http_post r); eexists; split; reflexivity
    end.
Qed.

(** X27: for a record with a known modality, the body that is posted is
    the serialization of a payload that has no [metadata] entry, that
    agrees with the top level of the record on every key outside the
    whitelist (so a [metadata] or [settings] field outside the whitelist
    is never copied into it), and that carries a non-empty sender email
    under [email]. *)
Theorem upload_payload_content (dumps : gmap string WebAPI.json -> string)
    (py_str : WebAPI.json -> string)
    (http_post : WebAPI.request -> WebAPI.post_outcome)
    (in_data metadata data : gmap string WebAPI.json) (addr : string) (port : Z)
    (email : option string) :
  in_data !! "metadata" = Some (WebAPI.JObj metadata) ->
  WebAPI.known_modality
    (default (WebAPI.JStr "None") (metadata !! "modality")) = true ->
  upload_payload in_data metadata email = Ok data ->
  (exists req,
     (WebAPI.upload_qc_metrics dumps py_str http_post in_data addr port email).1
     = [req] /\
     WebAPI.body req = dumps data) /\
  data !! "metadata" = None /\
  (forall k, k ∉ WebAPI.META_WHITELIST -> k <> "email" -> k <> "metadata" ->
     data !! k = in_data !! k) /\
  (forall e, email = Some e -> e <> "" -> data !! "email" = Some (WebAPI.JStr e)).
Proof.
  intros Hmeta Hk Hpay.
  split; [exact (upload_body dumps py_str http_post in_data metadata data addr
                   port email Hmeta Hk Hpay) |].
  assert (Hbase : exists base : gmap string WebAPI.json,
            (forall k, k ∉ WebAPI.META_WHITELIST ->
               base !! k = if decide (k = "metadata") then None
                           else in_data !! k) /\
            data = match email with
                   | Some e => if String.eqb e "" then base
                               else <["email" := WebAPI.JStr e]> base
                   | None => base
                   end).
  { revert Hpay. unfold upload_payload.
    destruct (in_data !! "settings") as [[| b | q | s | l | settings] |];
      cbn [mbind result_bind]; try discriminate; intros [= <-];
      eexists; (split; [| reflexivity]); intros k Hk'.
    - rewrite !lookup_union_r by (apply whitelisted_lookup_None; exact Hk').
      apply without_metadata_lookup.
    - rewrite lookup_union_r by (apply whitelisted_lookup_None; exact Hk').
      apply without_metadata_lookup. }
  destruct Hbase as (base & Hbase & ->).
  assert (Hins : forall k (d : gmap string WebAPI.json),
            k <> "email" ->
            match email with
            | Some e => if String.eqb e "" then d
                        else <["email" := WebAPI.JStr e]> d
            | None => d
            end !! k = d !! k).
  { intros k d Hne. destruct email as [e |]; [| reflexivity].
    destruct (String.eqb e ""); [reflexivity |].
    apply lookup_insert_ne. congruence. }
  split; [| split].
  - rewrite Hins by discriminate.
    rewrite (Hbase "metadata" metadata_not_whitelisted). reflexivity.
  - intros k Hwl Hne Hnm. rewrite Hins by exact Hne.
    rewrite (Hbase k Hwl). destruct (decide (k = "metadata")); [contradiction |].
    reflexivity.
  - intros e -> Hne. destruct (String.eqb e "") eqn:E.
    + apply String.eqb_eq in E. contradiction.
    + apply lookup_insert_eq.
Qed.

Lemma upload_payload_content_witness :
  let metadata : gmap string WebAPI.json :=
    <["PatientName" := WebAPI.JStr "Doe"]>
      (<["modality" := WebAPI.JStr "bold"]> ∅) in
  let in_data : gmap string WebAPI.json :=
    <["metadata" := WebAPI.JObj metadata]> (<["snr" := WebAPI.JNum 12]> ∅) in
  exists data,
    upload_payload in_data metadata (Some "a@b.org") = Ok data /\
    data !! "PatientName" = None /\
    data !! "snr" = Some (WebAPI.JNum 12) /\
    data !! "email" = Some (WebAPI.JStr "a@b.org").
Proof.
  intros metadata in_data.
  assert (Hpay : exists data,
            upload_payload in_data metadata (Some "a@b.org") = Ok data).
  { eexists. reflexivity. }
  destruct Hpay as [data Hpay]. exists data. split; [exact Hpay |].
  destruct (upload_payload_content dumps_keys str_scalar http_created in_data
              metadata data "localhost" 5000 (Some "a@b.org")
              eq_refl eq_refl Hpay) as (_ & _ & Hother & Hemail).
  assert (Hnw : forall k, k = "PatientName" \/ k = "snr" ->
                          k ∉ WebAPI.META_WHITELIST).
  { intros k Hk H. unfold WebAPI.META_WHITELIST in H.
    repeat (apply elem_of_cons in H as [H | H];
            [destruct Hk as [-> | ->]; discriminate H |]).
    apply elem_of_nil in H. exact H. }
  split; [| split].
  - rewrite (Hother "PatientName") by (auto || discriminate). reflexivity.
  - rewrite (Hother "snr") by (auto || discriminate). reflexivity.
  - apply (Hemail "a@b.org"); [reflexivity | discriminate].
Defined.

(** ** [UploadIQMs._run_interface] *)

(** X28: the interface sends what [upload_qc_metrics] sends.  It raises
    exactly when [upload_qc_metrics] raised (the same exception), or in
    strict mode on a response whose status is not 201 (a local error object
    included), then with [RuntimeError]; outside strict mode it returns
    whenever [upload_qc_metrics] returned. *)
Theorem run_interface_outcome (dumps : gmap string WebAPI.json -> string)
    (py_str : WebAPI.json -> string)
    (http_post : WebAPI.request -> WebAPI.post_outcome)
    (in_iqms : gmap string WebAPI.json) (address : string) (port : Z)
    (email : option string) (strict : bool) :
  let up :=
    WebAPI.upload_qc_metrics dumps py_str http_post in_iqms address port email in
  let out :=
    _run_interface dumps py_str http_post in_iqms address port email strict in
  out.1.1 = up.1 /\
  (forall e,
     out.2 = Raise e <->
     up.2 = Raise e \/
     (strict = true /\ e = RuntimeError /\
      exists response, up.2 = Ok response /\
                       WebAPI.status_code response <> 201%Z)) /\
  (strict = false ->
   (out.2 = Ok tt <-> exists response, up.2 = Ok response)).
Proof.
  cbv zeta. unfold _run_interface.
  destruct (WebAPI.upload_qc_metrics dumps py_str http_post in_iqms address
              port email) as [sent [response | e0]]; cbn [fst snd] in *.
  - destruct (WebAPI.status_code response =? 201)%Z eqn:E; cbn [fst snd].
    + apply Z.eqb_eq in E. split; [reflexivity |]. split.
      * intros e. split; [discriminate |].
        intros [[=] | (_ & _ & r & [= <-] & Hne)]. contradiction.
      * intros _. split; [eauto | reflexivity].
    + apply Z.eqb_neq in E. split; [reflexivity |]. split.
      * intros e. destruct strict.
        -- split.
           ++ intros [= <-]. right. eauto.
           ++ intros [[=] | (_ & -> & _)]. reflexivity.
        -- split; [discriminate | intros [[=] | ([=] & _)]].
      * intros ->. split; [eauto | reflexivity].
  - split; [reflexivity |]. split.
    + intros e. split.
      * intros [= <-]. left. reflexivity.
      * intros [[= <-] | (_ & _ & r & [=] & _)]. reflexivity.
    + intros _. split; [discriminate | intros [r [=]]].
Qed.

Lemma run_interface_outcome_witness :
  let in_iqms : gmap string WebAPI.json :=
    <["metadata" := WebAPI.JObj (<["modality" := WebAPI.JStr "dwi"]> ∅)]>
      (<["snr" := WebAPI.JNum 12]> ∅) in
  (_run_interface dumps_keys str_scalar http_created in_iqms "localhost" 5000
     None true).2 = Raise RuntimeError /\
  (_run_interface dumps_keys str_scalar http_created in_iqms "localhost" 5000
     None false).2 = Ok tt.
Proof.
  intros in_iqms. split.
  - apply (proj1 (proj2 (run_interface_outcome dumps_keys str_scalar
                           http_created in_iqms "localhost" 5000 None true))).
    right. split; [reflexivity |]. split; [reflexivity |].
    eexists. split; [reflexivity |]. discriminate.
  - apply (proj2 (proj2 (run_interface_outcome dumps_keys str_scalar
                           http_created in_iqms "localhost" 5000 None false))
             eq_refl).
    eexists. reflexivity.
Defined.

(** ** [wm2max] *)

Lemma gt0_label_mask (lid : Z) (seg : ndarray) :
  gt0 (label_mask lid seg) = eq_int lid seg.
Proof.
  destruct seg as [a | a]; cbn; rewrite map_map; apply map_ext; intros v.
  - destruct (v =? lid)%Z; reflexivity.
  - destruct (Qeq_bool v (inject_Z lid)); reflexivity.
Qed.

Lemma wm2max_unfold (img : list Q) (seg : ndarray) :
  length img = arr_len seg ->
  wm2max img seg
  = (p ← percentile img (9995 # 100);
     Ok (fl_div (median (pick img (eq_int 3 seg))) (Some p))).
Proof.
  intros Hlen. unfold wm2max.
  change (getitem FSL_FAST_LABELS "wm") with (Ok 3%Z : result Z).
  cbn [mbind result_bind]. rewrite gt0_label_mask.
  rewrite bool_index_same_length by (rewrite length_eq_int; exact Hlen).
  reflexivity.
Qed.

(** X29: on a volume that is not empty and a segmentation without any
    white-matter voxel, [wm2max] returns nan instead of failing. *)
Theorem wm2max_no_white_matter (img : list Q) (seg : list Z) :
  img <> [] ->
  length img = length seg ->
  Forall (fun z => z <> 3%Z) seg ->
  wm2max img (IntArr seg) = Ok None.
Proof.
  intros Hne Hlen Hno. rewrite (wm2max_unfold img (IntArr seg) Hlen).
  rewrite (percentile_nonempty img _ Hne). cbn [mbind result_bind].
  rewrite (pick_none img (eq_int 3 (IntArr seg))); [reflexivity |].
  cbn. apply Forall_fmap. eapply Forall_impl; [exact Hno |].
  intros z Hz. cbn. apply Z.eqb_neq. exact Hz.
Qed.

Lemma wm2max_no_white_matter_witness :
  wm2max [10; 20; 30] (IntArr [0; 1; 2]%Z) = Ok None.
Proof.
  apply wm2max_no_white_matter; [discriminate | reflexivity |].
  repeat constructor; discriminate.
Defined.

Lemma pick_Forall (P : Q -> Prop) (img : list Q) (m : list bool) :
  Forall P img -> Forall P (pick img m).
Proof.
  intros H. revert m. induction H as [| x img Hx _ IH]; intros [| b m];
    try constructor.
  cbn. destruct b; [constructor; [exact Hx | apply IH] | apply IH].
Qed.

Lemma nth_uniform (v : Q) (s : list Q) (i : nat) (d : Q) :
  Forall (fun x => x == v) s -> d == v -> nth i s d == v.
Proof.
  intros Hs Hd. destruct (List.nth_in_or_default i s d) as [Hin | ->];
    [| exact Hd].
  exact (proj1 (List.Forall_forall _ _) Hs _ Hin).
Qed.

Lemma percentile_uniform (v p : Q) (l : list Q) :
  l <> [] -> Forall (fun x => x == v) l -> 0 <= p <= 100 ->
  exists q, percentile l p = Ok q /\ q == v.
Proof.
  intros Hne Hv Hp. rewrite (percentile_nonempty l p Hne).
  pose proof (sort_Forall _ l Hv) as Hs.
  pose proof (length_sort l) as Hlen.
  eexists. split; [reflexivity |].
  unfold interpolate. cbv zeta.
  set (pos := inject_Z (Z.of_nat (length (sort l) - 1)) * p / 100).
  set (lo := Z.to_nat (Qfloor pos)).
  assert (Hlo : (lo < length (sort l))%nat).
  { assert (Hn : (0 < length (sort l))%nat).
    { rewrite Hlen. destruct l; [congruence | cbn; lia]. }
    assert (Hle : pos <= inject_Z (Z.of_nat (length (sort l) - 1))).
    { subst pos. apply Qle_shift_div_r; [reflexivity |].
      assert (0 <= inject_Z (Z.of_nat (length (sort l) - 1))).
      { change 0 with (inject_Z 0). rewrite <- Zle_Qle. lia. }
      nra. }
    apply Qfloor_resp_le in Hle. rewrite Qfloor_Z in Hle. subst lo. lia. }
  assert (Ha : nth lo (sort l) 0 == v).
  { exact (proj1 (List.Forall_nth _ _) Hs lo 0 Hlo). }
  assert (Hb : nth (S lo) (sort l) (nth lo (sort l) 0) == v).
  { apply nth_uniform; assumption. }
  rewrite Hb, Ha. ring.
Qed.

(** X30: on a uniform, non-zero volume with at least one white-matter
    voxel, [wm2max] is exactly 1. *)
Theorem wm2max_uniform (img : list Q) (seg : ndarray) (v : Q) :
  length img = arr_len seg ->
  Forall (fun x => x == v) img ->
  ~ v == 0 ->
  pick img (eq_int 3 seg) <> [] ->
  exists r, wm2max img seg = Ok (Some r) /\ r == 1.
Proof.
  intros Hlen Hv Hnz Hwm. rewrite (wm2max_unfold img seg Hlen).
  assert (Hne : img <> []).
  { intros ->. apply Hwm. destruct (eq_int 3 seg); reflexivity. }
  destruct (percentile_uniform v (9995 # 100) img Hne Hv) as (q & -> & Hq).
  { split; [intros H | intros H]; discriminate H. }
  cbn [mbind result_bind].
  destruct (median (pick img (eq_int 3 seg))) as [m |] eqn:Em.
  2:{ apply median_None in Em. contradiction. }
  assert (Hm : v <= m <= v).
  { apply (median_between v v (pick img (eq_int 3 seg)) m); [| exact Em].
    apply pick_Forall. eapply Forall_impl; [exact Hv |].
    intros x Hx. cbn in Hx. lra. }
  cbn [fl_div].
  destruct (Qeq_bool q 0) eqn:E.
  { apply Qeq_bool_iff in E. exfalso. apply Hnz. lra. }
  eexists. split; [reflexivity |].
  assert (Hmv : m == v) by lra. rewrite Hmv, Hq. field. exact Hnz.
Qed.

Lemma wm2max_uniform_witness :
  exists r, wm2max [7; 7; 7; 7] (IntArr [0; 3; 3; 2]%Z) = Ok (Some r) /\ r == 1.
Proof.
  apply (wm2max_uniform [7; 7; 7; 7] (IntArr [0; 3; 3; 2]%Z) 7).
  - reflexivity.
  - repeat constructor.
  - intros H. discriminate H.
  - discriminate.
Defined.
